(** * TransformMatrix: the 2D affine transform of the display list

    A shallow embedding of [src/gameobjects/components/TransformMatrix.js].

    - JavaScript numbers are an interface ([JSNumber]) with two instances:
      IEEE-754 binary64 built on the Standard Library's [SpecFloat]
      (module [IEEE], the arithmetic the engine runs), and the real numbers
      (module [Ideal], the arithmetic the formulas are written for).
    - The six scalars live in a [Float32Array]: every element store goes
      through [to_float32], every element load returns the stored number.
    - Instances are objects of a store, addressed by location, so that
      [this], [rhs] and [out] may or may not be the same object. *)

From Stdlib Require Import ZArith Bool Lia.
From Stdlib Require Import Floats.SpecFloat.
From Stdlib Require Import Reals Lra.
From stdpp Require Import base option gmap.

(** ** Numbers *)

(** What the source needs from the Number type and from [Math]. *)
Class JSNumber (num : Type) := {
  of_Z : Z -> num;                (* integer literals *)
  add : num -> num -> num;        (* x + y *)
  sub : num -> num -> num;        (* x - y *)
  mul : num -> num -> num;        (* x * y *)
  div : num -> num -> num;        (* x / y *)
  neg : num -> num;               (* -x *)
  to_boolean : num -> bool;       (* ToBoolean(x), the test of [if (x)] *)
  gt : num -> num -> bool;        (* x > y *)
  Math_sqrt : num -> num;
  to_float32 : num -> num         (* the conversion of a Float32Array store *)
}.

(** The transcendental part of [Math], and the constant [TAU] of
    [math/const]. *)
Class JSMath (num : Type) := {
  Math_cos : num -> num;
  Math_sin : num -> num;
  Math_acos : num -> num;
  Math_atan : num -> num;
  Math_PI : num;
  MATH_CONST_TAU : num
}.

Declare Scope js_scope.
Delimit Scope js_scope with js.
Infix "+" := add : js_scope.
Infix "-" := sub : js_scope.
Infix "*" := mul : js_scope.
Infix "/" := div : js_scope.
Notation "- x" := (neg x) : js_scope.

(** [a || b] in a condition: the first operand when it is truthy, else the
    second, then [ToBoolean]. *)
Definition or_truthy {num : Type} `{!JSNumber num} (a b : num) : bool :=
  to_boolean (if to_boolean a then a else b).

(** ** IEEE-754 binary64 numbers and binary32 storage *)

Module IEEE.

Definition float := spec_float.

Definition prec64 : Z := 53.
Definition emax64 : Z := 1024.
Definition prec32 : Z := 24.
Definition emax32 : Z := 128.

Definition signed_mantissa (s : bool) (m : positive) : Z :=
  cond_Zopp s (Zpos m).

(** The canonical binary64 datum of a number that binary64 holds exactly
    (the Number a Float32Array element reads as). *)
Definition to_binary64 (x : float) : float :=
  match x with
  | S754_finite s m e => binary_normalize prec64 emax64 (signed_mantissa s m) e s
  | _ => x
  end.

(** Round to nearest, ties to even, into binary32. *)
Definition to_binary32 (x : float) : float :=
  match x with
  | S754_finite s m e => binary_normalize prec32 emax32 (signed_mantissa s m) e s
  | _ => x
  end.

(** What a Float32Array element holds after [x] is stored, as a Number. *)
Definition fround (x : float) : float := to_binary64 (to_binary32 x).

Definition float_of_Z (z : Z) : float := binary_normalize prec64 emax64 z 0 false.

(** [ToBoolean]: 0, -0 and NaN are falsy. *)
Definition is_truthy (x : float) : bool :=
  match x with
  | S754_zero _ | S754_nan => false
  | _ => true
  end.

(** [x > y]; false when an operand is NaN. *)
Definition gtb (x y : float) : bool :=
  match SFcompare x y with
  | Some Gt => true
  | _ => false
  end.

Definition is_zero (x : float) : bool :=
  match x with
  | S754_zero _ => true
  | _ => false
  end.

Definition is_finite (x : float) : bool :=
  match x with
  | S754_zero _ | S754_finite _ _ _ => true
  | _ => false
  end.


(** [x] is the Number read from a Float32Array element. *)
Definition is_float32 (x : float) : Prop :=
  exists y, valid_binary prec32 emax32 y = true /\ x = to_binary64 y.

#[global] Instance float_number : JSNumber float := {
  of_Z := float_of_Z;
  add := SFadd prec64 emax64;
  sub := SFsub prec64 emax64;
  mul := SFmul prec64 emax64;
  div := SFdiv prec64 emax64;
  neg := SFopp;
  to_boolean := is_truthy;
  gt := gtb;
  Math_sqrt := SFsqrt prec64 emax64;
  to_float32 := fround
}.

End IEEE.

(** ** Real numbers: the arithmetic without rounding

    No operation rounds and the Float32Array stores a number as it is. *)

Module Ideal.

Definition is_truthy (x : R) : bool :=
  if Req_dec_T x 0 then false else true.

Definition gtb (x y : R) : bool :=
  if Rlt_dec y x then true else false.

#[global] Instance real_number : JSNumber R := {
  of_Z := IZR;
  add := Rplus;
  sub := Rminus;
  mul := Rmult;
  div := Rdiv;
  neg := Ropp;
  to_boolean := is_truthy;
  gt := gtb;
  Math_sqrt := sqrt;
  to_float32 := fun x => x
}.

(** Modelled from the spec: [MATH_CONST.TAU] (math/const is not under src/)
    is the full turn 2π that closes the spec's interval [0, 2π). *)
#[global] Instance real_math : JSMath R := {
  Math_cos := cos;
  Math_sin := sin;
  Math_acos := acos;
  Math_atan := atan;
  Math_PI := PI;
  MATH_CONST_TAU := (2 * PI)%R
}.

End Ideal.

(** ** Objects and the store *)

Definition loc := positive.

(** The element indices the class uses.  The array is created with nine
    elements; elements 6, 7 and 8 hold 0, 0, 1 and no method reads or writes
    them. *)
Inductive index := ix0 | ix1 | ix2 | ix3 | ix4 | ix5.

Section Objects.
Context {num : Type}.

Record Float32Array := mkFloat32Array {
  m0 : num; m1 : num; m2 : num; m3 : num; m4 : num; m5 : num
}.

(** [this.decomposedMatrix]; a property that was never assigned is
    [undefined], here [None]. *)
Record Decomposed := mkDecomposed {
  translateX : option num;
  translateY : option num;
  scaleX : option num;
  scaleY : option num;
  rotation : option num;
  skewX : option num;
  skewY : option num
}.

Record TransformMatrix := mkTransformMatrix {
  matrix : Float32Array;
  decomposedMatrix : Decomposed
}.

(** A point-like object: [{ x, y }] or a Vector2. *)
Record Point := mkPoint { Point_x : num; Point_y : num }.

Record store := mkStore {
  matrices : gmap loc TransformMatrix;
  points : gmap loc Point
}.

Definition get (m : Float32Array) (i : index) : num :=
  match i with
  | ix0 => m0 m | ix1 => m1 m | ix2 => m2 m
  | ix3 => m3 m | ix4 => m4 m | ix5 => m5 m
  end.

Definition put (m : Float32Array) (i : index) (v : num) : Float32Array :=
  match i with
  | ix0 => mkFloat32Array v (m1 m) (m2 m) (m3 m) (m4 m) (m5 m)
  | ix1 => mkFloat32Array (m0 m) v (m2 m) (m3 m) (m4 m) (m5 m)
  | ix2 => mkFloat32Array (m0 m) (m1 m) v (m3 m) (m4 m) (m5 m)
  | ix3 => mkFloat32Array (m0 m) (m1 m) (m2 m) v (m4 m) (m5 m)
  | ix4 => mkFloat32Array (m0 m) (m1 m) (m2 m) (m3 m) v (m5 m)
  | ix5 => mkFloat32Array (m0 m) (m1 m) (m2 m) (m3 m) (m4 m) v
  end.

(** ** The monad of methods: a store, and failure for a receiver that is
    not a live object. *)

Definition M (A : Type) : Type := store -> option (A * store).

Definition ret {A} (a : A) : M A := fun st => Some (a, st).

Definition bind {A B} (c : M A) (k : A -> M B) : M B :=
  fun st => match c st with
            | Some (a, st') => k a st'
            | None => None
            end.

End Objects.

Arguments Float32Array : clear implicits.
Arguments Decomposed : clear implicits.
Arguments TransformMatrix : clear implicits.
Arguments Point : clear implicits.
Arguments store : clear implicits.
Arguments M : clear implicits.

Notation "'var' x ':=' c ';' k" := (bind c (fun x => k))
  (at level 10, x name, c at level 100, k at level 200,
   format "'[v' 'var'  x  ':='  c ';' '/' k ']'").
Notation "c ';;;' k" := (bind c (fun _ => k))
  (at level 100, k at level 200, right associativity,
   format "'[v' c ';;;' '/' k ']'").

Section Methods.
Context {num : Type} `{!JSNumber num}.
Local Open Scope js_scope.

(** [matrix[i]] of the object at [r]. *)
Definition load (r : loc) (i : index) : M num num :=
  fun st => match matrices st !! r with
            | Some o => Some (get (matrix o) i, st)
            | None => None
            end.

(** [matrix[i] = v] on the object at [r]. *)
Definition store_elem (r : loc) (i : index) (v : num) : M num unit :=
  fun st => match matrices st !! r with
            | Some o =>
                Some (tt, mkStore
                  (<[r := mkTransformMatrix (put (matrix o) i (to_float32 v))
                                            (decomposedMatrix o)]> (matrices st))
                  (points st))
            | None => None
            end.

(** [this.decomposedMatrix], and an assignment to one of its properties. *)
Definition load_decomposed (r : loc) : M num (Decomposed num) :=
  fun st => match matrices st !! r with
            | Some o => Some (decomposedMatrix o, st)
            | None => None
            end.

Definition update_decomposed (r : loc) (f : Decomposed num -> Decomposed num)
  : M num unit :=
  fun st => match matrices st !! r with
            | Some o =>
                Some (tt, mkStore
                  (<[r := mkTransformMatrix (matrix o) (f (decomposedMatrix o))]>
                     (matrices st))
                  (points st))
            | None => None
            end.

Definition set_translateX (v : num) (d : Decomposed num) :=
  mkDecomposed (Some v) (translateY d) (scaleX d) (scaleY d) (rotation d) (skewX d) (skewY d).
Definition set_translateY (v : num) (d : Decomposed num) :=
  mkDecomposed (translateX d) (Some v) (scaleX d) (scaleY d) (rotation d) (skewX d) (skewY d).
Definition set_scaleX (v : num) (d : Decomposed num) :=
  mkDecomposed (translateX d) (translateY d) (Some v) (scaleY d) (rotation d) (skewX d) (skewY d).
Definition set_scaleY (v : num) (d : Decomposed num) :=
  mkDecomposed (translateX d) (translateY d) (scaleX d) (Some v) (rotation d) (skewX d) (skewY d).
Definition set_rotation (v : num) (d : Decomposed num) :=
  mkDecomposed (translateX d) (translateY d) (scaleX d) (scaleY d) (Some v) (skewX d) (skewY d).
Definition set_skewX (v : num) (d : Decomposed num) :=
  mkDecomposed (translateX d) (translateY d) (scaleX d) (scaleY d) (rotation d) (Some v) (skewY d).
Definition set_skewY (v : num) (d : Decomposed num) :=
  mkDecomposed (translateX d) (translateY d) (scaleX d) (scaleY d) (rotation d) (skewX d) (Some v).

(** Points: [{ x: 0, y: 0 }] / [new Vector2()], [p.x = v], [p.y = v]. *)
Definition new_point : M num loc :=
  fun st =>
    let p := fresh (dom (points st)) in
    Some (p, mkStore (matrices st)
                     (<[p := mkPoint (of_Z 0) (of_Z 0)]> (points st))).

Definition set_x (p : loc) (v : num) : M num unit :=
  fun st => match points st !! p with
            | Some o => Some (tt, mkStore (matrices st)
                                          (<[p := mkPoint v (Point_y o)]> (points st)))
            | None => None
            end.

Definition set_y (p : loc) (v : num) : M num unit :=
  fun st => match points st !! p with
            | Some o => Some (tt, mkStore (matrices st)
                                          (<[p := mkPoint (Point_x o) v]> (points st)))
            | None => None
            end.

(** An optional argument: the default when it is [undefined]. *)
Definition default_arg (a : option num) (d : num) : num :=
  match a with Some v => v | None => d end.

(** [new TransformMatrix(a, b, c, d, tx, ty)] *)
Definition new_TransformMatrix (a b c d tx ty : option num) : M num loc :=
  fun st =>
    let a := default_arg a (of_Z 1) in
    let b := default_arg b (of_Z 0) in
    let c := default_arg c (of_Z 0) in
    let d := default_arg d (of_Z 1) in
    let tx := default_arg tx (of_Z 0) in
    let ty := default_arg ty (of_Z 0) in
    let this := fresh (dom (matrices st)) in
    Some (this, mkStore
      (<[this := mkTransformMatrix
           (mkFloat32Array (to_float32 a) (to_float32 b) (to_float32 c)
                           (to_float32 d) (to_float32 tx) (to_float32 ty))
           (mkDecomposed (Some (of_Z 0)) (Some (of_Z 0)) (Some (of_Z 1))
                         (Some (of_Z 1)) (Some (of_Z 0)) None None)]>
         (matrices st))
      (points st)).

(** The getters [a], [b], [c], [d], [e], [f], [tx], [ty] and their setters. *)
Definition get_a (this : loc) := load this ix0.
Definition get_b (this : loc) := load this ix1.
Definition get_c (this : loc) := load this ix2.
Definition get_d (this : loc) := load this ix3.
Definition get_e (this : loc) := load this ix4.
Definition get_f (this : loc) := load this ix5.
Definition get_tx (this : loc) := load this ix4.
Definition get_ty (this : loc) := load this ix5.
Definition set_a (this : loc) (value : num) := store_elem this ix0 value.
Definition set_b (this : loc) (value : num) := store_elem this ix1 value.
Definition set_c (this : loc) (value : num) := store_elem this ix2 value.
Definition set_d (this : loc) (value : num) := store_elem this ix3 value.
Definition set_e (this : loc) (value : num) := store_elem this ix4 value.
Definition set_f (this : loc) (value : num) := store_elem this ix5 value.

(** The getters [scaleX] and [scaleY]. *)
Definition get_scaleX (this : loc) : M num num :=
  var a1 := get_a this;
  var a2 := get_a this;
  var b1 := get_b this;
  var b2 := get_b this;
  ret (Math_sqrt ((a1 * a2) + (b1 * b2))).

Definition get_scaleY (this : loc) : M num num :=
  var c1 := get_c this;
  var c2 := get_c this;
  var d1 := get_d this;
  var d2 := get_d this;
  ret (Math_sqrt ((c1 * c2) + (d1 * d2))).

Definition loadIdentity (this : loc) : M num loc :=
  store_elem this ix0 (of_Z 1);;;
  store_elem this ix1 (of_Z 0);;;
  store_elem this ix2 (of_Z 0);;;
  store_elem this ix3 (of_Z 1);;;
  store_elem this ix4 (of_Z 0);;;
  store_elem this ix5 (of_Z 0);;;
  ret this.

Definition translate (this : loc) (x y : num) : M num loc :=
  var a := load this ix0;
  var c := load this ix2;
  var e := load this ix4;
  store_elem this ix4 (a * x + c * y + e);;;
  var b := load this ix1;
  var d := load this ix3;
  var f := load this ix5;
  store_elem this ix5 (b * x + d * y + f);;;
  ret this.

Definition scale (this : loc) (x y : num) : M num loc :=
  var a := load this ix0;
  store_elem this ix0 (a * x);;;
  var b := load this ix1;
  store_elem this ix1 (b * x);;;
  var c := load this ix2;
  store_elem this ix2 (c * y);;;
  var d := load this ix3;
  store_elem this ix3 (d * y);;;
  ret this.

Definition multiply (this rhs : loc) (out : option loc) : M num loc :=
  var localA := load this ix0;
  var localB := load this ix1;
  var localC := load this ix2;
  var localD := load this ix3;
  var localE := load this ix4;
  var localF := load this ix5;
  var sourceA := load rhs ix0;
  var sourceB := load rhs ix1;
  var sourceC := load rhs ix2;
  var sourceD := load rhs ix3;
  var sourceE := load rhs ix4;
  var sourceF := load rhs ix5;
  let destinationMatrix := match out with None => this | Some o => o end in
  set_a destinationMatrix ((sourceA * localA) + (sourceB * localC));;;
  set_b destinationMatrix ((sourceA * localB) + (sourceB * localD));;;
  set_c destinationMatrix ((sourceC * localA) + (sourceD * localC));;;
  set_d destinationMatrix ((sourceC * localB) + (sourceD * localD));;;
  set_e destinationMatrix ((sourceE * localA) + (sourceF * localC) + localE);;;
  set_f destinationMatrix ((sourceE * localB) + (sourceF * localD) + localF);;;
  ret destinationMatrix.

Definition multiplyWithOffset (this src : loc) (offsetX offsetY : num) : M num loc :=
  var a0 := load this ix0;
  var b0 := load this ix1;
  var c0 := load this ix2;
  var d0 := load this ix3;
  var tx0 := load this ix4;
  var ty0 := load this ix5;
  let pse := offsetX * a0 + offsetY * c0 + tx0 in
  let psf := offsetX * b0 + offsetY * d0 + ty0 in
  var a1 := load src ix0;
  var b1 := load src ix1;
  var c1 := load src ix2;
  var d1 := load src ix3;
  var tx1 := load src ix4;
  var ty1 := load src ix5;
  store_elem this ix0 (a1 * a0 + b1 * c0);;;
  store_elem this ix1 (a1 * b0 + b1 * d0);;;
  store_elem this ix2 (c1 * a0 + d1 * c0);;;
  store_elem this ix3 (c1 * b0 + d1 * d0);;;
  store_elem this ix4 (tx1 * a0 + ty1 * c0 + pse);;;
  store_elem this ix5 (tx1 * b0 + ty1 * d0 + psf);;;
  ret this.

Definition transform (this : loc) (a b c d tx ty : num) : M num loc :=
  var a0 := load this ix0;
  var b0 := load this ix1;
  var c0 := load this ix2;
  var d0 := load this ix3;
  var tx0 := load this ix4;
  var ty0 := load this ix5;
  store_elem this ix0 (a * a0 + b * c0);;;
  store_elem this ix1 (a * b0 + b * d0);;;
  store_elem this ix2 (c * a0 + d * c0);;;
  store_elem this ix3 (c * b0 + d * d0);;;
  store_elem this ix4 (tx * a0 + ty * c0 + tx0);;;
  store_elem this ix5 (tx * b0 + ty * d0 + ty0);;;
  ret this.

Definition transformPoint (this : loc) (x y : num) (point : option loc) : M num loc :=
  var point := match point with None => new_point | Some p => ret p end;
  var a := load this ix0;
  var b := load this ix1;
  var c := load this ix2;
  var d := load this ix3;
  var tx := load this ix4;
  var ty := load this ix5;
  set_x point (x * a + y * c + tx);;;
  set_y point (x * b + y * d + ty);;;
  ret point.

Definition invert (this : loc) : M num loc :=
  var a := load this ix0;
  var b := load this ix1;
  var c := load this ix2;
  var d := load this ix3;
  var tx := load this ix4;
  var ty := load this ix5;
  let n := a * d - b * c in
  store_elem this ix0 (d / n);;;
  store_elem this ix1 (- b / n);;;
  store_elem this ix2 (- c / n);;;
  store_elem this ix3 (a / n);;;
  store_elem this ix4 ((c * ty - d * tx) / n);;;
  store_elem this ix5 (- (a * ty - b * tx) / n);;;
  ret this.

Definition copyFrom (this src : loc) : M num loc :=
  var a := get_a src;
  store_elem this ix0 a;;;
  var b := get_b src;
  store_elem this ix1 b;;;
  var c := get_c src;
  store_elem this ix2 c;;;
  var d := get_d src;
  store_elem this ix3 d;;;
  var e := get_e src;
  store_elem this ix4 e;;;
  var f := get_f src;
  store_elem this ix5 f;;;
  ret this.

Definition setTransform (this : loc) (a b c d tx ty : num) : M num loc :=
  store_elem this ix0 a;;;
  store_elem this ix1 b;;;
  store_elem this ix2 c;;;
  store_elem this ix3 d;;;
  store_elem this ix4 tx;;;
  store_elem this ix5 ty;;;
  ret this.

Definition applyInverse (this : loc) (x y : num) (output : option loc) : M num loc :=
  var output := match output with None => new_point | Some p => ret p end;
  var a := load this ix0;
  var b := load this ix1;
  var c := load this ix2;
  var d := load this ix3;
  var tx := load this ix4;
  var ty := load this ix5;
  let id := of_Z 1 / ((a * d) + (c * - b)) in
  set_x output ((d * id * x) + (- c * id * y) + (((ty * c) - (tx * d)) * id));;;
  set_y output ((a * id * y) + (- b * id * x) + (((- ty * a) + (tx * b)) * id));;;
  ret output.

Definition getX (this : loc) (x y : num) : M num num :=
  var a := get_a this;
  var c := get_c this;
  var e := get_e this;
  ret (x * a + y * c + e).

Definition getY (this : loc) (x y : num) : M num num :=
  var b := get_b this;
  var d := get_d this;
  var f := get_f this;
  ret (x * b + y * d + f).

(** [p.x] and [p.y] of a point, read together. *)
Definition read_point (p : loc) : M num (Point num) :=
  fun st => match points st !! p with
            | Some o => Some (o, st)
            | None => None
            end.

(** A caller's round trip: [q = this.transformPoint(x, y)], then
    [this.applyInverse(q.x, q.y)]. *)
Definition inverse_of_transformed (this : loc) (x y : num) : M num (Point num) :=
  var q := transformPoint this x y None;
  var Q := read_point q;
  var r := applyInverse this (Point_x Q) (Point_y Q) None;
  read_point r.

(** A caller's [this.transformPoint(x, y)], read back. *)
Definition transformed (this : loc) (x y : num) : M num (Point num) :=
  var q := transformPoint this x y None;
  read_point q.

(** [destroy()]: [this.matrix = null; this.decomposedMatrix = null].  The
    instance has no storage left: it leaves the live matrices of the store,
    and an access to its storage fails as an access through [null] does. *)
Definition destroy (this : loc) : M num unit :=
  fun st => Some (tt, mkStore (delete this (matrices st)) (points st)).

(** The determinant [a * d - b * c], as [invert] and [decomposeMatrix]
    compute it. *)
Definition determinant (m : Float32Array num) : num :=
  m0 m * m3 m - m1 m * m2 m.

(** A method that writes to no matrix but [this], and to no point. *)
Definition writes_only (this : loc) {A} (c : M num A) : Prop :=
  forall st a st',
    c st = Some (a, st') ->
    points st' = points st /\
    forall r, r <> this -> matrices st' !! r = matrices st !! r.

(** A method that leaves the whole store as it is. *)
Definition reads_only {A} (c : M num A) : Prop :=
  forall st a st', c st = Some (a, st') -> st' = st.

Section Trigonometry.
Context `{!JSMath num}.

(** The getter [rotation]. *)
Definition get_rotation (this : loc) : M num num :=
  var a := get_a this;
  var sx := get_scaleX this;
  var c := get_c this;
  var a' := get_a this;
  ret (Math_acos (a / sx) *
       (if gt (of_Z 0) (Math_atan (- c / a')) then - of_Z 1 else of_Z 1)).

(** The getter [rotationNormalized]. *)
Definition get_rotationNormalized (this : loc) : M num num :=
  var a := load this ix0;
  var b := load this ix1;
  var c := load this ix2;
  var d := load this ix3;
  if or_truthy a b then
    var sx := get_scaleX this;
    ret (if gt b (of_Z 0) then Math_acos (a / sx) else - Math_acos (a / sx))
  else if or_truthy c d then
    var sy := get_scaleY this;
    ret (MATH_CONST_TAU -
         (if gt d (of_Z 0) then Math_acos (- c / sy) else - Math_acos (c / sy)))
  else
    ret (of_Z 0).

Definition rotate (this : loc) (angle : num) : M num loc :=
  let sin := Math_sin angle in
  let cos := Math_cos angle in
  var a := load this ix0;
  var b := load this ix1;
  var c := load this ix2;
  var d := load this ix3;
  store_elem this ix0 (a * cos + c * sin);;;
  store_elem this ix1 (b * cos + d * sin);;;
  store_elem this ix2 (a * - sin + c * cos);;;
  store_elem this ix3 (b * - sin + d * cos);;;
  ret this.

Definition applyITRS (this : loc) (x y rotation scaleX scaleY : num)
    (skewX skewY : option num) : M num loc :=
  let skewX := default_arg skewX (of_Z 0) in
  let skewY := default_arg skewY (of_Z 0) in
  store_elem this ix4 x;;;
  store_elem this ix5 y;;;
  store_elem this ix0 (Math_cos (rotation - skewY) * scaleX);;;
  store_elem this ix1 (Math_sin (rotation - skewY) * scaleX);;;
  store_elem this ix2 (- Math_sin (rotation + skewX) * scaleY);;;
  store_elem this ix3 (Math_cos (rotation + skewX) * scaleY);;;
  ret this.

Definition skew (this : loc) (sx sy : num) : M num loc :=
  var tx := get_tx this;
  var ty := get_ty this;
  var r := get_rotation this;
  var scx := get_scaleX this;
  var scy := get_scaleY this;
  applyITRS this tx ty r scx scy (Some sx) (Some sy);;;
  ret this.

(** The literal [0.5]. *)
Definition lit_0_5 : num := of_Z 1 / of_Z 2.

Definition decomposeMatrix (this : loc) : M num (Decomposed num) :=
  var a := load this ix0;
  var b := load this ix1;
  var c := load this ix2;
  var d := load this ix3;
  let determ := a * d - b * c in
  let scaleX2 := a * a + b * b in
  let scaleY2 := c * c + d * d in
  var tx := load this ix4;
  update_decomposed this (set_translateX tx);;;
  var ty := load this ix5;
  update_decomposed this (set_translateY ty);;;
  update_decomposed this (set_scaleX (of_Z 1));;;
  update_decomposed this (set_scaleY (of_Z 1));;;
  update_decomposed this (set_rotation (of_Z 0));;;
  update_decomposed this (set_skewX (of_Z 0));;;
  update_decomposed this (set_skewX (of_Z 0));;;
  (if or_truthy a b then
     let scaleX := Math_sqrt scaleX2 in
     update_decomposed this (set_rotation
       (if gt b (of_Z 0) then Math_acos (a / scaleX) else - Math_acos (a / scaleX)));;;
     update_decomposed this (set_scaleX scaleX);;;
     update_decomposed this (set_scaleY (determ / scaleX));;;
     update_decomposed this (set_skewX (Math_atan ((a * c + b * d) / scaleX2)))
   else if or_truthy c d then
     let scaleY := Math_sqrt scaleY2 in
     update_decomposed this (set_rotation
       (Math_PI * lit_0_5 -
        (if gt d (of_Z 0) then Math_acos (- c / scaleY) else - Math_acos (c / scaleY))));;;
     update_decomposed this (set_scaleX (determ / scaleY));;;
     update_decomposed this (set_scaleY scaleY);;;
     update_decomposed this (set_skewY (Math_atan ((a * c + b * d) / scaleY2)))
   else
     update_decomposed this (set_rotation (of_Z 0));;;
     update_decomposed this (set_scaleX (of_Z 0));;;
     update_decomposed this (set_scaleY (of_Z 0)));;;
  load_decomposed this.

End Trigonometry.

(** The object an optional point argument designates: the one given, or the
    one the method creates; a given one has to be a live point. *)
Definition out_point (st : store num) (p : option loc) : loc :=
  match p with None => fresh (dom (points st)) | Some p => p end.

Definition out_point_ok (st : store num) (p : option loc) : Prop :=
  match p with None => True | Some p => is_Some (points st !! p) end.

End Methods.

(** ** Plain arrays of the IEEE instance

    An element is a Number or [undefined]; the array is passed and returned
    by value. *)

Module Arrays.
Import IEEE.

Inductive value := Number (x : float) | Undefined.

Definition ToNumber (v : value) : float :=
  match v with Number x => x | Undefined => S754_nan end.

(** [arr[i]] *)
Definition array_get (arr : list value) (i : nat) : value :=
  match arr !! i with Some v => v | None => Undefined end.

(** [arr[i] = v]: past the end the array grows, leaving holes. *)
Definition array_set (arr : list value) (i : nat) (v : value) : list value :=
  if (i <? length arr)%nat then <[i := v]> arr
  else arr ++ replicate (i - length arr) Undefined ++ [v].

Definition copyFromArray (this : loc) (src : list value) : M float loc :=
  store_elem this ix0 (ToNumber (array_get src 0));;;
  store_elem this ix1 (ToNumber (array_get src 1));;;
  store_elem this ix2 (ToNumber (array_get src 2));;;
  store_elem this ix3 (ToNumber (array_get src 3));;;
  store_elem this ix4 (ToNumber (array_get src 4));;;
  store_elem this ix5 (ToNumber (array_get src 5));;;
  ret this.

Definition copyToArray (this : loc) (out : option (list value))
  : M float (list value) :=
  match out with
  | None =>
      var a := load this ix0;
      var b := load this ix1;
      var c := load this ix2;
      var d := load this ix3;
      var e := load this ix4;
      var f := load this ix5;
      ret [Number a; Number b; Number c; Number d; Number e; Number f]
  | Some out =>
      var a := load this ix0;
      let out := array_set out 0 (Number a) in
      var b := load this ix1;
      let out := array_set out 1 (Number b) in
      var c := load this ix2;
      let out := array_set out 2 (Number c) in
      var d := load this ix3;
      let out := array_set out 3 (Number d) in
      var e := load this ix4;
      let out := array_set out 4 (Number e) in
      var f := load this ix5;
      let out := array_set out 5 (Number f) in
      ret out
  end.

End Arrays.

(** ** The storage invariant and sample stores of the IEEE instance *)

Section Samples.
Import IEEE.

Definition fresh_decomposed : Decomposed float :=
  mkDecomposed (Some (of_Z 0)) (Some (of_Z 0)) (Some (of_Z 1)) (Some (of_Z 1))
               (Some (of_Z 0)) None None.

Definition sample_matrix (a b c d tx ty : Z) : TransformMatrix float :=
  mkTransformMatrix
    (mkFloat32Array (of_Z a) (of_Z b) (of_Z c) (of_Z d) (of_Z tx) (of_Z ty))
    fresh_decomposed.

(** The Float32Array invariant: every element is a Number that binary32
    holds. *)
Definition float32_array (m : Float32Array float) : Prop :=
  forall i, is_float32 (get m i).

Definition float32_store (st : store float) : Prop :=
  forall r T, matrices st !! r = Some T -> float32_array (matrix T).

(** A method that keeps the invariant. *)
Definition preserves {A} (c : M float A) : Prop :=
  forall st a st', float32_store st -> c st = Some (a, st') -> float32_store st'.

(** The element index as a number. *)
Definition index_nat (i : index) : nat :=
  match i with
  | ix0 => 0 | ix1 => 1 | ix2 => 2 | ix3 => 3 | ix4 => 4 | ix5 => 5
  end.

(** The sign of a Number: set for a negative number and for -0, clear for
    NaN. *)
Definition sign_bit (x : float) : bool :=
  match x with
  | S754_zero s | S754_infinity s | S754_finite s _ _ => s
  | S754_nan => false
  end.

(** One instance, at location 1. *)
Definition one_matrix (T : TransformMatrix float) : store float :=
  mkStore {[ 1%positive := T ]} ∅.

(** Two instances, at locations 1 and 2. *)
Definition two_matrices (T U : TransformMatrix float) : store float :=
  mkStore (<[ 2%positive := U ]> {[ 1%positive := T ]}) ∅.

End Samples.

(** ** Sample stores of the real instance *)

Section RealSamples.

Definition real_decomposed : Decomposed R :=
  mkDecomposed (Some 0%R) (Some 0%R) (Some 1%R) (Some 1%R) (Some 0%R) None None.

Definition real_matrix (a b c d tx ty : R) : TransformMatrix R :=
  mkTransformMatrix (mkFloat32Array a b c d tx ty) real_decomposed.

Definition one_real_matrix (T : TransformMatrix R) : store R :=
  mkStore {[ 1%positive := T ]} ∅.

End RealSamples.

(** ** Running a method: one equation per primitive *)

Section Execution.
Context {num : Type} `{!JSNumber num}.

Lemma bind_ret {A B} (a : A) (k : A -> M num B) st :
  bind (ret a) k st = k a st.
Proof. reflexivity. Qed.

Lemma bind_bind {A B C} (c : M num A) (k : A -> M num B) (k' : B -> M num C) st :
  bind (bind c k) k' st = bind c (fun a => bind (k a) k') st.
Proof. unfold bind. destruct (c st) as [[a st']|]; reflexivity. Qed.

Lemma bind_load {B} r i (k : num -> M num B) st o :
  matrices st !! r = Some o ->
  bind (load r i) k st = k (get (matrix o) i) st.
Proof. intros H. unfold bind, load. rewrite H. reflexivity. Qed.

Lemma bind_store_elem {B} r i v (k : unit -> M num B) st o :
  matrices st !! r = Some o ->
  bind (store_elem r i v) k st =
  k tt (mkStore (<[r := mkTransformMatrix (put (matrix o) i (to_float32 v))
                                           (decomposedMatrix o)]> (matrices st))
                (points st)).
Proof. intros H. unfold bind, store_elem. rewrite H. reflexivity. Qed.

Lemma bind_update_decomposed {B} r f (k : unit -> M num B) st o :
  matrices st !! r = Some o ->
  bind (update_decomposed r f) k st =
  k tt (mkStore (<[r := mkTransformMatrix (matrix o) (f (decomposedMatrix o))]>
                   (matrices st))
                (points st)).
Proof. intros H. unfold bind, update_decomposed. rewrite H. reflexivity. Qed.

Lemma bind_set_x {B} p v (k : unit -> M num B) st o :
  points st !! p = Some o ->
  bind (set_x p v) k st =
  k tt (mkStore (matrices st) (<[p := mkPoint v (Point_y o)]> (points st))).
Proof. intros H. unfold bind, set_x. rewrite H. reflexivity. Qed.

Lemma bind_set_y {B} p v (k : unit -> M num B) st o :
  points st !! p = Some o ->
  bind (set_y p v) k st =
  k tt (mkStore (matrices st) (<[p := mkPoint (Point_x o) v]> (points st))).
Proof. intros H. unfold bind, set_y. rewrite H. reflexivity. Qed.

Lemma bind_new_point {B} (k : loc -> M num B) st :
  bind new_point k st =
  k (fresh (dom (points st)))
    (mkStore (matrices st)
             (<[fresh (dom (points st)) := mkPoint (of_Z 0) (of_Z 0)]> (points st))).
Proof. reflexivity. Qed.

Lemma fresh_point_unused (st : store num) :
  points st !! fresh (dom (points st)) = None.
Proof. apply not_elem_of_dom, is_fresh. Qed.

Lemma fresh_matrix_unused (st : store num) :
  matrices st !! fresh (dom (matrices st)) = None.
Proof. apply not_elem_of_dom, is_fresh. Qed.

End Execution.

(** Resolve the lookup a primitive needs in the current store. *)
Ltac lookup_now :=
  cbn [matrices points];
  first
    [ eassumption
    | apply lookup_insert_eq
    | rewrite lookup_insert_eq; reflexivity
    | rewrite lookup_insert_ne by congruence; eassumption ].

(** Run the next primitive of a method. *)
Ltac step :=
  first
    [ rewrite bind_ret
    | rewrite bind_bind
    | erewrite bind_load by lookup_now
    | erewrite bind_store_elem by lookup_now
    | erewrite bind_update_decomposed by lookup_now
    | erewrite bind_set_x by lookup_now
    | erewrite bind_set_y by lookup_now
    | rewrite bind_new_point ];
  cbn [matrices points matrix decomposedMatrix get put
       m0 m1 m2 m3 m4 m5 Point_x Point_y].

Ltac steps := repeat step.

(** Collapse successive writes to one object. *)
Ltac collapse := repeat rewrite insert_insert_eq.

Section Composition.
Context {num : Type} `{!JSNumber num}.
Local Open Scope js_scope.

(** The store after [multiply], in full. *)
Lemma multiply_run (st : store num) this rhs out L R D :
  let dest := match out with None => this | Some o => o end in
  matrices st !! this = Some L ->
  matrices st !! rhs = Some R ->
  matrices st !! dest = Some D ->
  multiply this rhs out st =
  Some (dest,
    mkStore
      (<[dest := mkTransformMatrix
           (mkFloat32Array
              (to_float32 ((m0 (matrix R) * m0 (matrix L)) + (m1 (matrix R) * m2 (matrix L))))
              (to_float32 ((m0 (matrix R) * m1 (matrix L)) + (m1 (matrix R) * m3 (matrix L))))
              (to_float32 ((m2 (matrix R) * m0 (matrix L)) + (m3 (matrix R) * m2 (matrix L))))
              (to_float32 ((m2 (matrix R) * m1 (matrix L)) + (m3 (matrix R) * m3 (matrix L))))
              (to_float32 ((m4 (matrix R) * m0 (matrix L)) + (m5 (matrix R) * m2 (matrix L)) + m4 (matrix L)))
              (to_float32 ((m4 (matrix R) * m1 (matrix L)) + (m5 (matrix R) * m3 (matrix L)) + m5 (matrix L))))
           (decomposedMatrix D)]> (matrices st))
      (points st)).
Proof.
  intros dest HL HR HD. unfold multiply, set_a, set_b, set_c, set_d, set_e, set_f.
  fold dest. steps. collapse. reflexivity.
Qed.

(** The store after [transformPoint] and [applyInverse], in full. *)
Lemma transformPoint_run (st : store num) this x y point T :
  matrices st !! this = Some T ->
  out_point_ok st point ->
  transformPoint this x y point st =
  Some (out_point st point,
    mkStore (matrices st)
      (<[out_point st point :=
           mkPoint (x * m0 (matrix T) + y * m2 (matrix T) + m4 (matrix T))
                   (x * m1 (matrix T) + y * m3 (matrix T) + m5 (matrix T))]>
         (points st))).
Proof.
  intros HT Hp. unfold transformPoint.
  destruct point as [p|]; cbn [out_point out_point_ok] in *.
  - destruct Hp as [o Ho]. steps. collapse. reflexivity.
  - steps. collapse. reflexivity.
Qed.

Lemma applyInverse_run (st : store num) this x y output T :
  matrices st !! this = Some T ->
  out_point_ok st output ->
  let a := m0 (matrix T) in let b := m1 (matrix T) in
  let c := m2 (matrix T) in let d := m3 (matrix T) in
  let tx := m4 (matrix T) in let ty := m5 (matrix T) in
  let id := of_Z 1 / ((a * d) + (c * - b)) in
  applyInverse this x y output st =
  Some (out_point st output,
    mkStore (matrices st)
      (<[out_point st output :=
           mkPoint ((d * id * x) + (- c * id * y) + (((ty * c) - (tx * d)) * id))
                   ((a * id * y) + (- b * id * x) + (((- ty * a) + (tx * b)) * id))]>
         (points st))).
Proof.
  intros HT Hp. unfold applyInverse.
  destruct output as [p|]; cbn [out_point out_point_ok] in *.
  - destruct Hp as [o Ho]. cbv zeta. steps. collapse. reflexivity.
  - cbv zeta. steps. collapse. reflexivity.
Qed.

(** The store after [translate], in full. *)
Lemma translate_run (st : store num) this x y T :
  matrices st !! this = Some T ->
  translate this x y st =
  Some (this,
    mkStore
      (<[this := mkTransformMatrix
           (mkFloat32Array (m0 (matrix T)) (m1 (matrix T)) (m2 (matrix T)) (m3 (matrix T))
              (to_float32 (m0 (matrix T) * x + m2 (matrix T) * y + m4 (matrix T)))
              (to_float32 (m1 (matrix T) * x + m3 (matrix T) * y + m5 (matrix T))))
           (decomposedMatrix T)]> (matrices st))
      (points st)).
Proof.
  intros HT. unfold translate. steps. collapse. reflexivity.
Qed.

(** The store after [multiplyWithOffset], in full. *)
Lemma multiplyWithOffset_run (st : store num) this src offsetX offsetY T S :
  matrices st !! this = Some T ->
  matrices st !! src = Some S ->
  let a0 := m0 (matrix T) in let b0 := m1 (matrix T) in
  let c0 := m2 (matrix T) in let d0 := m3 (matrix T) in
  let tx0 := m4 (matrix T) in let ty0 := m5 (matrix T) in
  let pse := offsetX * a0 + offsetY * c0 + tx0 in
  let psf := offsetX * b0 + offsetY * d0 + ty0 in
  multiplyWithOffset this src offsetX offsetY st =
  Some (this,
    mkStore
      (<[this := mkTransformMatrix
           (mkFloat32Array
              (to_float32 (m0 (matrix S) * a0 + m1 (matrix S) * c0))
              (to_float32 (m0 (matrix S) * b0 + m1 (matrix S) * d0))
              (to_float32 (m2 (matrix S) * a0 + m3 (matrix S) * c0))
              (to_float32 (m2 (matrix S) * b0 + m3 (matrix S) * d0))
              (to_float32 (m4 (matrix S) * a0 + m5 (matrix S) * c0 + pse))
              (to_float32 (m4 (matrix S) * b0 + m5 (matrix S) * d0 + psf)))
           (decomposedMatrix T)]> (matrices st))
      (points st)).
Proof.
  intros HT HS. unfold multiplyWithOffset. cbv zeta. steps. collapse. reflexivity.
Qed.

(** The store after [invert], in full. *)
Lemma invert_run (st : store num) this T :
  matrices st !! this = Some T ->
  let a := m0 (matrix T) in let b := m1 (matrix T) in
  let c := m2 (matrix T) in let d := m3 (matrix T) in
  let tx := m4 (matrix T) in let ty := m5 (matrix T) in
  let n := a * d - b * c in
  invert this st =
  Some (this,
    mkStore
      (<[this := mkTransformMatrix
           (mkFloat32Array
              (to_float32 (d / n)) (to_float32 (- b / n))
              (to_float32 (- c / n)) (to_float32 (a / n))
              (to_float32 ((c * ty - d * tx) / n))
              (to_float32 (- (a * ty - b * tx) / n)))
           (decomposedMatrix T)]> (matrices st))
      (points st)).
Proof.
  intros HT. unfold invert. cbv zeta. steps. collapse. reflexivity.
Qed.

(** The store after [loadIdentity], in full. *)
Lemma loadIdentity_run (st : store num) this T :
  matrices st !! this = Some T ->
  loadIdentity this st =
  Some (this,
    mkStore
      (<[this := mkTransformMatrix
           (mkFloat32Array
              (to_float32 (of_Z 1)) (to_float32 (of_Z 0))
              (to_float32 (of_Z 0)) (to_float32 (of_Z 1))
              (to_float32 (of_Z 0)) (to_float32 (of_Z 0)))
           (decomposedMatrix T)]> (matrices st))
      (points st)).
Proof.
  intros HT. unfold loadIdentity. steps. collapse. reflexivity.
Qed.

Section WithMath.
Context `{!JSMath num}.

(** The store after [applyITRS], in full. *)
Lemma applyITRS_run (st : store num) this x y rotation scaleX scaleY skewX skewY T :
  matrices st !! this = Some T ->
  let kx := default_arg skewX (of_Z 0) in
  let ky := default_arg skewY (of_Z 0) in
  applyITRS this x y rotation scaleX scaleY skewX skewY st =
  Some (this,
    mkStore
      (<[this := mkTransformMatrix
           (mkFloat32Array
              (to_float32 (Math_cos (rotation - ky) * scaleX))
              (to_float32 (Math_sin (rotation - ky) * scaleX))
              (to_float32 (- Math_sin (rotation + kx) * scaleY))
              (to_float32 (Math_cos (rotation + kx) * scaleY))
              (to_float32 x) (to_float32 y))
           (decomposedMatrix T)]> (matrices st))
      (points st)).
Proof.
  intros HT. unfold applyITRS. cbv zeta. steps. collapse. reflexivity.
Qed.

(** The getters [scaleX] and [scaleY] read the store and leave it alone. *)
Lemma bind_get_scaleX {B} this (k : num -> M num B) st T :
  matrices st !! this = Some T ->
  bind (get_scaleX this) k st =
  k (Math_sqrt ((m0 (matrix T) * m0 (matrix T)) + (m1 (matrix T) * m1 (matrix T)))) st.
Proof.
  intros HT. unfold get_scaleX, get_a, get_b. steps. reflexivity.
Qed.

Lemma bind_get_scaleY {B} this (k : num -> M num B) st T :
  matrices st !! this = Some T ->
  bind (get_scaleY this) k st =
  k (Math_sqrt ((m2 (matrix T) * m2 (matrix T)) + (m3 (matrix T) * m3 (matrix T)))) st.
Proof.
  intros HT. unfold get_scaleY, get_c, get_d. steps. reflexivity.
Qed.

(** The value of the getter [rotationNormalized]. *)
Lemma get_rotationNormalized_run (st : store num) this T :
  matrices st !! this = Some T ->
  let a := m0 (matrix T) in let b := m1 (matrix T) in
  let c := m2 (matrix T) in let d := m3 (matrix T) in
  let sx := Math_sqrt ((a * a) + (b * b)) in
  let sy := Math_sqrt ((c * c) + (d * d)) in
  get_rotationNormalized this st =
  Some (if or_truthy a b then
          if gt b (of_Z 0) then Math_acos (a / sx) else - Math_acos (a / sx)
        else if or_truthy c d then
          MATH_CONST_TAU -
          (if gt d (of_Z 0) then Math_acos (- c / sy) else - Math_acos (c / sy))
        else of_Z 0,
        st).
Proof.
  intros HT. cbv zeta. unfold get_rotationNormalized. steps.
  destruct (or_truthy (m0 (matrix T)) (m1 (matrix T))).
  - erewrite bind_get_scaleX by eassumption. reflexivity.
  - destruct (or_truthy (m2 (matrix T)) (m3 (matrix T))).
    + erewrite bind_get_scaleY by eassumption. reflexivity.
    + reflexivity.
Qed.

(** The record [decomposeMatrix] leaves in [this.decomposedMatrix] and
    returns: [skewY] is assigned in the (c, d) branch only. *)
Lemma decomposeMatrix_run (st : store num) this T :
  matrices st !! this = Some T ->
  let a := m0 (matrix T) in let b := m1 (matrix T) in
  let c := m2 (matrix T) in let d := m3 (matrix T) in
  let determ := a * d - b * c in
  let scaleX2 := a * a + b * b in
  let scaleY2 := c * c + d * d in
  let D :=
    if or_truthy a b then
      mkDecomposed
        (Some (m4 (matrix T))) (Some (m5 (matrix T)))
        (Some (Math_sqrt scaleX2)) (Some (determ / Math_sqrt scaleX2))
        (Some (if gt b (of_Z 0) then Math_acos (a / Math_sqrt scaleX2)
               else - Math_acos (a / Math_sqrt scaleX2)))
        (Some (Math_atan ((a * c + b * d) / scaleX2)))
        (skewY (decomposedMatrix T))
    else if or_truthy c d then
      mkDecomposed
        (Some (m4 (matrix T))) (Some (m5 (matrix T)))
        (Some (determ / Math_sqrt scaleY2)) (Some (Math_sqrt scaleY2))
        (Some (Math_PI * lit_0_5 -
               (if gt d (of_Z 0) then Math_acos (- c / Math_sqrt scaleY2)
                else - Math_acos (c / Math_sqrt scaleY2))))
        (Some (of_Z 0))
        (Some (Math_atan ((a * c + b * d) / scaleY2)))
    else
      mkDecomposed
        (Some (m4 (matrix T))) (Some (m5 (matrix T)))
        (Some (of_Z 0)) (Some (of_Z 0)) (Some (of_Z 0)) (Some (of_Z 0))
        (skewY (decomposedMatrix T)) in
  decomposeMatrix this st =
  Some (D, mkStore (<[this := mkTransformMatrix (matrix T) D]> (matrices st))
                   (points st)).
Proof.
  intros HT. cbv zeta. unfold decomposeMatrix. cbv zeta. steps.
  destruct (or_truthy (m0 (matrix T)) (m1 (matrix T)));
    [|destruct (or_truthy (m2 (matrix T)) (m3 (matrix T)))];
    steps; unfold load_decomposed; cbn [matrices];
    rewrite lookup_insert_eq; cbn [decomposedMatrix]; collapse; reflexivity.
Qed.

End WithMath.

End Composition.

(** ** Facts of binary64 arithmetic and binary32 storage *)

Section BinaryFloats.
Import IEEE.
Local Open Scope js_scope.

(** The instance computes what the engine computes. *)
Example tenth_plus_two_tenths :   (* 0.1 + 0.2 is 0.30000000000000004 *)
  (of_Z 1 / of_Z 10 + of_Z 2 / of_Z 10 : float) =
  S754_finite false 5404319552844596 (-54).
Proof. vm_compute. reflexivity. Qed.

Example sqrt_two :                (* Math.sqrt(2) is 1.4142135623730951 *)
  (Math_sqrt (of_Z 2) : float) = S754_finite false 6369051672525773 (-52).
Proof. vm_compute. reflexivity. Qed.

Example fround_tenth :            (* Math.fround(0.1) is 0.10000000149011612 *)
  fround (of_Z 1 / of_Z 10) = S754_finite false 7205759511166976 (-56).
Proof. vm_compute. reflexivity. Qed.

Example fround_ties_to_even :     (* Math.fround(16777217) is 16777216 *)
  fround (of_Z 16777217) = of_Z 16777216.
Proof. vm_compute. reflexivity. Qed.

Example fround_overflows :        (* Math.fround(1e39) is Infinity *)
  fround (of_Z (10 ^ 39)) = S754_infinity false.
Proof. vm_compute. reflexivity. Qed.

Example division_by_zero :        (* 1/0, -1/0 and 0/0 *)
  (of_Z 1 / of_Z 0 : float) = S754_infinity false /\
  (of_Z (-1) / of_Z 0 : float) = S754_infinity true /\
  (of_Z 0 / of_Z 0 : float) = S754_nan.
Proof. repeat split; vm_compute; reflexivity. Qed.

Lemma iter_pos_iter {A} (f : A -> A) p x : SpecFloat.iter_pos f p x = Pos.iter f x p.
Proof.
  revert x. induction p as [p IH|p IH|]; intros x; cbn [SpecFloat.iter_pos Pos.iter].
  - rewrite !IH, !Pos.iter_swap. reflexivity.
  - rewrite !IH. reflexivity.
  - reflexivity.
Qed.

Lemma digits2_pos_shift m d :
  digits2_pos (Pos.iter xO m d) = (digits2_pos m + d)%positive.
Proof.
  induction d as [|d IH] using Pos.peano_ind.
  - cbn. lia.
  - rewrite Pos.iter_succ. cbn [digits2_pos]. rewrite IH. lia.
Qed.

Lemma shr_shift m d :
  SpecFloat.iter_pos shr_1 d (Build_shr_record (Zpos (Pos.iter xO m d)) false false) =
  Build_shr_record (Zpos m) false false.
Proof.
  rewrite iter_pos_iter. revert m.
  induction d as [|d IH] using Pos.peano_ind; intros m.
  - reflexivity.
  - rewrite Pos.iter_succ_r, Pos.iter_succ. cbn [shr_1 orb]. apply IH.
Qed.

Lemma binary_normalize_signed p em s m e :
  binary_normalize p em (signed_mantissa s m) e s = binary_round p em s m e.
Proof. destruct s; reflexivity. Qed.

(** A mantissa that is already in its canonical position is left alone. *)
Lemma binary_round_aux_canonical p em s m e :
  SpecFloat.bounded p em m e = true ->
  binary_round_aux p em s (Zpos m) e loc_Exact = S754_finite s m e.
Proof.
  unfold SpecFloat.bounded, canonical_mantissa. intros H.
  apply andb_true_iff in H as [Hc He].
  apply Z.eqb_eq in Hc.
  unfold binary_round_aux, shr_fexp. cbn [Zdigits2 shr_record_of_loc].
  rewrite Hc, Z.sub_diag. cbn [shr shr_m loc_of_shr_record round_nearest_even
    Zdigits2 shr_record_of_loc].
  rewrite Hc, Z.sub_diag. cbn [shr shr_m]. rewrite He. reflexivity.
Qed.

Lemma bounded32_inv m e :
  SpecFloat.bounded prec32 emax32 m e = true ->
  (Z.max (Zpos (digits2_pos m) + e - 24) (-149) = e /\ e <= 104)%Z.
Proof.
  unfold SpecFloat.bounded, canonical_mantissa, fexp, emin, prec32, emax32.
  intros H. apply andb_true_iff in H as [Hc He].
  apply Z.eqb_eq in Hc. apply Z.leb_le in He. lia.
Qed.

(** Widening a binary32 datum: the mantissa is shifted to 53 digits. *)
Lemma to_binary64_of_binary32 s m e d :
  SpecFloat.bounded prec32 emax32 m e = true ->
  (Zpos d = 53 - Zpos (digits2_pos m))%Z ->
  to_binary64 (S754_finite s m e) =
  S754_finite s (Pos.iter xO m d) (e - Zpos d).
Proof.
  intros Hb Hd. destruct (bounded32_inv _ _ Hb) as [Hc He].
  unfold to_binary64. rewrite binary_normalize_signed.
  unfold binary_round, shl_align.
  assert (Hf : fexp prec64 emax64 (Zpos (digits2_pos m) + e) = (e - Zpos d)%Z).
  { unfold fexp, emin, prec64, emax64. lia. }
  rewrite Hf.
  replace (e - Zpos d - e)%Z with (Zneg d) by lia.
  apply binary_round_aux_canonical.
  unfold SpecFloat.bounded, canonical_mantissa.
  rewrite digits2_pos_shift.
  apply andb_true_iff. split.
  - apply Z.eqb_eq. unfold fexp, emin, prec64, emax64. lia.
  - apply Z.leb_le. unfold prec64, emax64. lia.
Qed.

(** Storing the widened datum gives the binary32 datum back. *)
Lemma to_binary32_of_widened s m e d :
  SpecFloat.bounded prec32 emax32 m e = true ->
  (Zpos d = 53 - Zpos (digits2_pos m))%Z ->
  to_binary32 (S754_finite s (Pos.iter xO m d) (e - Zpos d)) =
  S754_finite s m e.
Proof.
  intros Hb Hd. destruct (bounded32_inv _ _ Hb) as [Hc He].
  unfold to_binary32. rewrite binary_normalize_signed.
  unfold binary_round, shl_align.
  assert (Hf : fexp prec32 emax32
                 (Zpos (digits2_pos (Pos.iter xO m d)) + (e - Zpos d)) = e).
  { rewrite digits2_pos_shift. unfold fexp, emin, prec32, emax32. lia. }
  rewrite Hf.
  replace (e - (e - Zpos d))%Z with (Zpos d) by lia.
  unfold binary_round_aux, shr_fexp. cbn [Zdigits2 shr_record_of_loc].
  rewrite Hf.
  replace (e - (e - Zpos d))%Z with (Zpos d) by lia.
  cbn [shr]. rewrite shr_shift.
  cbn [shr_m loc_of_shr_record round_nearest_even Zdigits2 shr_record_of_loc].
  replace (e - Zpos d + Zpos d)%Z with e by lia.
  assert (Hg : fexp prec32 emax32 (Zpos (digits2_pos m) + e) = e).
  { unfold fexp, emin, prec32, emax32. lia. }
  rewrite Hg, Z.sub_diag. cbn [shr shr_m].
  replace (e <=? emax32 - prec32)%Z with true; [reflexivity|].
  symmetry. apply Z.leb_le. unfold prec32, emax32. lia.
Qed.

(** *** Rounding gives a datum of the format

    [binary_round] is the rounding of the Standard Library's specification;
    whatever it is given, what it returns is a valid datum of the format. *)

Section RoundingIsValid.
Variables p em : Z.
Hypothesis Hp : (0 < p)%Z.

Local Abbreviation fexp := (fexp p em).

Lemma fexp_mono z z' : (z <= z')%Z -> (fexp z <= fexp z')%Z.
Proof. unfold SpecFloat.fexp. lia. Qed.

Lemma fexp_succ z : (fexp (z + 1) <= fexp z + 1)%Z.
Proof. unfold SpecFloat.fexp. lia. Qed.

Lemma Zdigits2_nonneg m : (0 <= Zdigits2 m)%Z.
Proof. destruct m; cbn; lia. Qed.

Lemma digits2_pos_succ q :
  (Zpos (digits2_pos q) <= Zpos (digits2_pos (Pos.succ q)) <= Zpos (digits2_pos q) + 1)%Z.
Proof.
  induction q as [q IH|q IH|]; unfold Pos.succ; fold Pos.succ;
    cbn [digits2_pos]; lia.
Qed.

Lemma Zdigits2_succ m :
  (0 <= m)%Z -> (Zdigits2 m <= Zdigits2 (m + 1) <= Zdigits2 m + 1)%Z.
Proof.
  intros Hm. destruct m as [|q|q];
    [change (0 + 1)%Z with 1%Z; cbn [Zdigits2 digits2_pos]; lia| |lia].
  replace (Zpos q + 1)%Z with (Zpos (Pos.succ q)) by lia.
  cbn [Zdigits2]. apply digits2_pos_succ.
Qed.

Lemma shr_1_digits r :
  (0 <= shr_m r)%Z ->
  (0 <= shr_m (shr_1 r))%Z /\
  Zdigits2 (shr_m (shr_1 r)) = Z.max 0 (Zdigits2 (shr_m r) - 1).
Proof.
  destruct r as [m r s]. cbn [shr_m]. intros Hm.
  destruct m as [|[q|q|]|q]; cbn [shr_1 shr_m Zdigits2 digits2_pos]; try lia.
Qed.

Lemma shr_iter_digits n r :
  (0 <= shr_m r)%Z ->
  (0 <= shr_m (SpecFloat.iter_pos shr_1 n r))%Z /\
  Zdigits2 (shr_m (SpecFloat.iter_pos shr_1 n r)) = Z.max 0 (Zdigits2 (shr_m r) - Zpos n).
Proof.
  rewrite iter_pos_iter. revert r.
  induction n as [|n IH] using Pos.peano_ind; intros r Hr.
  - cbn [Pos.iter]. apply shr_1_digits, Hr.
  - rewrite Pos.iter_succ.
    destruct (IH r Hr) as [H0 H1].
    destruct (shr_1_digits _ H0) as [H2 H3].
    split; [exact H2|]. rewrite H3, H1. lia.
Qed.

(** After the shift of [shr_fexp] the mantissa sits at its canonical exponent. *)
Lemma shr_fexp_canonical m e l :
  (0 <= m)%Z -> (e <= fexp (Zdigits2 m + e))%Z ->
  let '(mrs, e') := shr_fexp p em m e l in
  (0 <= shr_m mrs)%Z /\ fexp (Zdigits2 (shr_m mrs) + e') = e'
  /\ (e <= e')%Z.
Proof.
  intros Hm He. unfold shr_fexp, shr.
  assert (Hrec : shr_m (shr_record_of_loc m l) = m) by (destruct l as [|[]]; reflexivity).
  destruct (fexp (Zdigits2 m + e) - e)%Z as [|n|n] eqn:En; try lia.
  - rewrite Hrec. repeat split; lia.
  - destruct (shr_iter_digits n (shr_record_of_loc m l)) as [H0 H1]; [rewrite Hrec; exact Hm|].
    rewrite Hrec in H1. split; [exact H0|]. rewrite H1.
    pose proof (Zdigits2_nonneg m).
    split; [|lia].
    unfold SpecFloat.fexp in *. lia.
Qed.

Lemma round_nearest_even_bounds m l :
  (0 <= m)%Z ->
  (0 <= round_nearest_even m l)%Z /\
  (Zdigits2 m <= Zdigits2 (round_nearest_even m l) <= Zdigits2 m + 1)%Z.
Proof.
  intros Hm. pose proof (Zdigits2_succ m Hm).
  unfold round_nearest_even. destruct l as [|[]]; try destruct (Z.even m); lia.
Qed.

Lemma binary_round_aux_valid s m e l :
  (0 <= m)%Z -> (e <= fexp (Zdigits2 m + e))%Z ->
  valid_binary p em (binary_round_aux p em s m e l) = true.
Proof.
  intros Hm He. unfold binary_round_aux.
  pose proof (shr_fexp_canonical m e l Hm He) as H1.
  destruct (shr_fexp p em m e l) as [mrs' e'].
  destruct H1 as (H1m & H1c & _).
  destruct (round_nearest_even_bounds (shr_m mrs') (loc_of_shr_record mrs') H1m) as [Hr0 Hrd].
  set (m1 := round_nearest_even (shr_m mrs') (loc_of_shr_record mrs')) in *.
  assert (He1 : (e' <= fexp (Zdigits2 m1 + e'))%Z).
  { rewrite <- H1c at 1. apply fexp_mono. lia. }
  pose proof (shr_fexp_canonical m1 e' loc_Exact Hr0 He1) as H2.
  destruct (shr_fexp p em m1 e' loc_Exact) as [mrs'' e''].
  destruct H2 as (H2m & H2c & _).
  destruct (shr_m mrs'') as [|q|q] eqn:Eq; try reflexivity.
  destruct (e'' <=? em - p)%Z eqn:Ele; [|reflexivity].
  cbn [valid_binary]. unfold SpecFloat.bounded, canonical_mantissa.
  cbn [Zdigits2] in H2c. rewrite H2c, Z.eqb_refl, Ele. reflexivity.
Qed.

Lemma binary_round_valid s m e :
  valid_binary p em (binary_round p em s m e) = true.
Proof.
  unfold binary_round, shl_align.
  destruct (fexp (Zpos (digits2_pos m) + e) - e)%Z as [|n|n] eqn:En.
  - apply binary_round_aux_valid; cbn [Zdigits2]; lia.
  - apply binary_round_aux_valid; cbn [Zdigits2]; lia.
  - apply binary_round_aux_valid; [lia|]. cbn [Zdigits2].
    rewrite digits2_pos_shift.
    replace (Zpos (digits2_pos m + n) + fexp (Zpos (digits2_pos m) + e))%Z
      with (Zpos (digits2_pos m) + e)%Z by lia.
    lia.
Qed.

End RoundingIsValid.

(** Every Number read from a Float32Array element is stored back unchanged. *)
Lemma fround_float32 x : is_float32 x -> fround x = x.
Proof.
  intros (y & Hy & ->). unfold fround.
  destruct y as [s|s| |s m e]; try reflexivity.
  cbn [valid_binary] in Hy.
  destruct (bounded32_inv _ _ Hy) as [Hc He].
  assert (Hd : (Zpos (Z.to_pos (53 - Zpos (digits2_pos m))) =
                53 - Zpos (digits2_pos m))%Z) by lia.
  rewrite (to_binary64_of_binary32 s m e _ Hy Hd).
  rewrite (to_binary32_of_widened s m e _ Hy Hd).
  apply (to_binary64_of_binary32 s m e _ Hy Hd).
Qed.

(** *** Non-finite values *)

Lemma div_zero_not_finite (x n : float) :
  is_zero n = true -> is_finite (div x n) = false.
Proof. destruct n; try discriminate. destruct x; reflexivity. Qed.

Lemma fround_not_finite (x : float) :
  is_finite x = false -> is_finite (fround x) = false.
Proof. destruct x; try discriminate; reflexivity. Qed.

Lemma mul_not_finite_l (u x : float) :
  is_finite u = false -> is_finite (mul u x) = false.
Proof. destruct u; try discriminate; destruct x; reflexivity. Qed.

Lemma mul_not_finite_r (x u : float) :
  is_finite u = false -> is_finite (mul x u) = false.
Proof. destruct u; try discriminate; destruct x; reflexivity. Qed.

Lemma add_not_finite_l (u x : float) :
  is_finite u = false -> is_finite (add u x) = false.
Proof.
  destruct u as [|[]| |]; try discriminate; destruct x as [|[]| |]; reflexivity.
Qed.

Lemma add_not_finite_r (x u : float) :
  is_finite u = false -> is_finite (add x u) = false.
Proof.
  destruct u as [|[]| |]; try discriminate; destruct x as [|[]| |]; reflexivity.
Qed.

(** *** Signs and operand order *)

Lemma binary_round_aux_opp p em s m e l :
  binary_round_aux p em (negb s) m e l = SFopp (binary_round_aux p em s m e l).
Proof.
  unfold binary_round_aux.
  destruct (shr_fexp p em m e l) as [mrs' e'].
  destruct (shr_fexp p em _ e' loc_Exact) as [mrs'' e''].
  destruct (shr_m mrs''); try reflexivity.
  destruct (e'' <=? em - p)%Z; reflexivity.
Qed.

Lemma mul_comm (x y : float) : mul x y = mul y x.
Proof.
  destruct x as [sx|sx| |sx mx ex], y as [sy|sy| |sy my ey]; cbn;
    rewrite ?(xorb_comm sx sy); try reflexivity.
  rewrite (Pos.mul_comm mx my), (Z.add_comm ex ey). reflexivity.
Qed.

Lemma mul_neg_r (x y : float) : mul x (neg y) = neg (mul x y).
Proof.
  destruct x as [sx|sx| |sx mx ex], y as [sy|sy| |sy my ey]; cbn;
    rewrite <- ?negb_xorb_r; try reflexivity.
  apply binary_round_aux_opp.
Qed.

Lemma sub_add_neg (x y : float) : sub x y = add x (neg y).
Proof.
  destruct x as [[]|[]| |sx mx ex], y as [[]|[]| |sy my ey]; try reflexivity.
  cbn. f_equal. destruct sy; cbn; lia.
Qed.

(** The two ways the source writes the determinant are one Number. *)
Lemma determinant_forms (a b c d : float) :
  add (mul a d) (mul c (neg b)) = sub (mul a d) (mul b c).
Proof. rewrite mul_neg_r, (mul_comm c b), sub_add_neg. reflexivity. Qed.

(** *** The Float32Array invariant *)

Lemma to_binary32_valid (x : float) :
  valid_binary prec32 emax32 (to_binary32 x) = true.
Proof.
  destruct x as [s|s| |s m e]; try reflexivity.
  unfold to_binary32. rewrite binary_normalize_signed.
  apply binary_round_valid. reflexivity.
Qed.

(** What an element store leaves in the array is a binary32 datum. *)
Lemma fround_is_float32 (x : float) : is_float32 (fround x).
Proof. exists (to_binary32 x). split; [apply to_binary32_valid|reflexivity]. Qed.

Lemma fround_idempotent (x : float) : fround (fround x) = fround x.
Proof. apply fround_float32, fround_is_float32. Qed.

End BinaryFloats.

(** ** Facts of the real instance *)

Section RealFacts.

Lemma real_truthy (x : R) : Ideal.is_truthy x = true <-> x <> 0%R.
Proof.
  unfold Ideal.is_truthy. destruct (Req_dec_T x 0); split; intros H;
    congruence.
Qed.

Lemma real_or_truthy (x y : R) :
  or_truthy x y = true <-> (x <> 0 \/ y <> 0)%R.
Proof.
  unfold or_truthy. cbn [to_boolean Ideal.real_number].
  destruct (Ideal.is_truthy x) eqn:Hx.
  - rewrite Hx. apply real_truthy in Hx. tauto.
  - rewrite real_truthy. split; [tauto|].
    intros [H|H]; [|exact H].
    apply real_truthy in H. congruence.
Qed.

Lemma real_or_falsy (x y : R) :
  or_truthy x y = false <-> (x = 0 /\ y = 0)%R.
Proof.
  pose proof (real_or_truthy x y) as H.
  destruct (or_truthy x y).
  - split; [discriminate|]. intros [-> ->].
    destruct (proj1 H eq_refl) as [E|E]; congruence.
  - split; [|reflexivity]. intros _.
    destruct (Req_dec_T x 0) as [Hx|Hx], (Req_dec_T y 0) as [Hy|Hy]; try tauto;
      exfalso; assert (false = true) by (apply H; tauto); discriminate.
Qed.

Lemma real_gt (x y : R) : gt x y = true <-> (y < x)%R.
Proof.
  cbn [gt Ideal.real_number]. unfold Ideal.gtb.
  destruct (Rlt_dec y x); split; intros H; congruence.
Qed.

End RealFacts.

(** ** Plain arrays *)

Section ArrayFacts.
Import IEEE Arrays.

(** Writing element [k] of an array whose first [k] elements are [vs]. *)
Lemma array_set_take (arr : list value) (k : nat) (v : value) (vs : list value) :
  length vs = k ->
  take k arr = vs ->
  take (S k) (array_set arr k v) = vs ++ [v].
Proof.
  intros Hlen Htake. unfold array_set.
  assert (Hk : (k <= length arr)%nat).
  { rewrite <- Hlen, <- Htake, length_take. lia. }
  destruct (k <? length arr)%nat eqn:Hlt.
  - apply Nat.ltb_lt in Hlt.
    rewrite (take_S_r _ _ v) by (apply list_lookup_insert_eq; exact Hlt).
    rewrite take_insert_ge by lia. rewrite Htake. reflexivity.
  - apply Nat.ltb_ge in Hlt.
    replace (k - length arr)%nat with 0%nat by lia. cbn [replicate app].
    rewrite take_ge in Htake by lia. subst vs.
    rewrite take_ge by (rewrite length_app; cbn; lia). reflexivity.
Qed.

Lemma array_get_take (arr : list value) (n i : nat) (vs : list value) (v : value) :
  take n arr = vs -> vs !! i = Some v -> array_get arr i = v.
Proof.
  intros <- Hi. unfold array_get.
  rewrite lookup_take_Some in Hi. destruct Hi as [-> _]. reflexivity.
Qed.

(** [copyToArray] leaves the store alone and returns an array that starts
    with the six scalars. *)
Lemma copyToArray_run (st : store float) this out T :
  matrices st !! this = Some T ->
  exists arr,
    copyToArray this out st = Some (arr, st) /\
    take 6 arr =
      [Number (m0 (matrix T)); Number (m1 (matrix T)); Number (m2 (matrix T));
       Number (m3 (matrix T)); Number (m4 (matrix T)); Number (m5 (matrix T))] /\
    (out = None -> length arr = 6%nat).
Proof.
  intros HT. unfold copyToArray. destruct out as [out|].
  - eexists. split; [steps; cbv zeta; reflexivity|]. split; [|discriminate].
    set (a := Number (m0 (matrix T))). set (b := Number (m1 (matrix T))).
    set (c := Number (m2 (matrix T))). set (d := Number (m3 (matrix T))).
    set (e := Number (m4 (matrix T))).
    apply (array_set_take _ 5 _ [a; b; c; d; e] eq_refl).
    apply (array_set_take _ 4 _ [a; b; c; d] eq_refl).
    apply (array_set_take _ 3 _ [a; b; c] eq_refl).
    apply (array_set_take _ 2 _ [a; b] eq_refl).
    apply (array_set_take _ 1 _ [a] eq_refl).
    apply (array_set_take _ 0 _ [] eq_refl). apply take_0.
  - eexists. split; [steps; reflexivity|]. split; reflexivity.
Qed.

(** The store after [copyFromArray], in full. *)
Lemma copyFromArray_run (st : store float) this src T :
  matrices st !! this = Some T ->
  copyFromArray this src st =
  Some (this,
    mkStore
      (<[this := mkTransformMatrix
           (mkFloat32Array
              (fround (ToNumber (array_get src 0)))
              (fround (ToNumber (array_get src 1)))
              (fround (ToNumber (array_get src 2)))
              (fround (ToNumber (array_get src 3)))
              (fround (ToNumber (array_get src 4)))
              (fround (ToNumber (array_get src 5))))
           (decomposedMatrix T)]> (matrices st))
      (points st)).
Proof.
  intros HT. unfold copyFromArray. steps. collapse. reflexivity.
Qed.

End ArrayFacts.

(** ** Every method keeps the Float32Array invariant *)

Section Float32Invariant.
Import IEEE Arrays.

Lemma preserves_ret {A} (a : A) : preserves (ret a).
Proof. intros st a' st' Hst [= _ <-]. exact Hst. Qed.

Lemma preserves_bind {A B} (c : M float A) (k : A -> M float B) :
  preserves c -> (forall a, preserves (k a)) -> preserves (bind c k).
Proof.
  intros Hc Hk st b st' Hst. unfold bind.
  destruct (c st) as [[a st1]|] eqn:E; [|discriminate].
  intros Hrun. exact (Hk a st1 b st' (Hc st a st1 Hst E) Hrun).
Qed.

Lemma preserves_load r i : preserves (load r i).
Proof.
  intros st a st' Hst. unfold load.
  destruct (matrices st !! r); [|discriminate]. intros [= _ <-]. exact Hst.
Qed.

Lemma preserves_load_decomposed r : preserves (load_decomposed r).
Proof.
  intros st a st' Hst. unfold load_decomposed.
  destruct (matrices st !! r); [|discriminate]. intros [= _ <-]. exact Hst.
Qed.

Lemma float32_array_put m i v :
  float32_array m -> float32_array (put m i (fround v)).
Proof.
  intros Hm j. destruct i, j; cbn [get put m0 m1 m2 m3 m4 m5];
    first [apply fround_is_float32 | apply (Hm ix0) | apply (Hm ix1)
          | apply (Hm ix2) | apply (Hm ix3) | apply (Hm ix4) | apply (Hm ix5)].
Qed.

Lemma preserves_store_elem r i v : preserves (store_elem r i v).
Proof.
  intros st a st' Hst. unfold store_elem.
  destruct (matrices st !! r) as [o|] eqn:E; [|discriminate]. intros [= _ <-].
  intros r' T'. cbn [matrices]. rewrite lookup_insert.
  destruct (decide (r = r')) as [->|Hne].
  - intros [= <-]. cbn [matrix]. apply float32_array_put, (Hst r' o E).
  - apply Hst.
Qed.

Lemma preserves_update_decomposed r f : preserves (update_decomposed r f).
Proof.
  intros st a st' Hst. unfold update_decomposed.
  destruct (matrices st !! r) as [o|] eqn:E; [|discriminate]. intros [= _ <-].
  intros r' T'. cbn [matrices]. rewrite lookup_insert.
  destruct (decide (r = r')) as [->|Hne].
  - intros [= <-]. cbn [matrix]. apply (Hst r' o E).
  - apply Hst.
Qed.

Lemma preserves_new_point : preserves new_point.
Proof. intros st a st' Hst [= _ <-]. exact Hst. Qed.

Lemma preserves_set_x q v : preserves (set_x q v).
Proof.
  intros st a st' Hst. unfold set_x.
  destruct (points st !! q); [|discriminate]. intros [= _ <-]. exact Hst.
Qed.

Lemma preserves_set_y q v : preserves (set_y q v).
Proof.
  intros st a st' Hst. unfold set_y.
  destruct (points st !! q); [|discriminate]. intros [= _ <-]. exact Hst.
Qed.

Lemma preserves_new_TransformMatrix a b c d tx ty :
  preserves (new_TransformMatrix a b c d tx ty).
Proof.
  intros st this st' Hst [= _ <-].
  intros r' T'. cbn [matrices]. rewrite lookup_insert.
  destruct (decide (_ = r')) as [_|Hne]; [|apply Hst].
  intros [= <-] i. destruct i; apply fround_is_float32.
Qed.

End Float32Invariant.

(** A method is a composition of primitives. *)
Ltac preserves_tac :=
  repeat first
    [ apply preserves_ret
    | apply preserves_load
    | apply preserves_load_decomposed
    | apply preserves_store_elem
    | apply preserves_update_decomposed
    | apply preserves_new_point
    | apply preserves_set_x
    | apply preserves_set_y
    | apply preserves_bind; [|intros ?]
    | match goal with
      | |- preserves (match ?x with _ => _ end) => destruct x
      end ].

Section MethodsKeepInvariant.
Import IEEE Arrays.
Context `{!JSMath float}.

Lemma preserves_loadIdentity this : preserves (loadIdentity this).
Proof. unfold loadIdentity. preserves_tac. Qed.

Lemma preserves_translate this x y : preserves (translate this x y).
Proof. unfold translate. preserves_tac. Qed.

Lemma preserves_scale this x y : preserves (scale this x y).
Proof. unfold scale. preserves_tac. Qed.

Lemma preserves_rotate this angle : preserves (rotate this angle).
Proof. unfold rotate. preserves_tac. Qed.

Lemma preserves_multiply this rhs out : preserves (multiply this rhs out).
Proof.
  unfold multiply, set_a, set_b, set_c, set_d, set_e, set_f. preserves_tac.
Qed.

Lemma preserves_multiplyWithOffset this src ox oy :
  preserves (multiplyWithOffset this src ox oy).
Proof. unfold multiplyWithOffset. preserves_tac. Qed.

Lemma preserves_transform this a b c d tx ty :
  preserves (transform this a b c d tx ty).
Proof. unfold transform. preserves_tac. Qed.

Lemma preserves_transformPoint this x y point :
  preserves (transformPoint this x y point).
Proof. unfold transformPoint. preserves_tac. Qed.

Lemma preserves_invert this : preserves (invert this).
Proof. unfold invert. preserves_tac. Qed.

Lemma preserves_copyFrom this src : preserves (copyFrom this src).
Proof. unfold copyFrom, get_a, get_b, get_c, get_d, get_e, get_f. preserves_tac. Qed.

Lemma preserves_copyFromArray this src : preserves (copyFromArray this src).
Proof. unfold copyFromArray. preserves_tac. Qed.

Lemma preserves_copyToArray this out : preserves (copyToArray this out).
Proof. unfold copyToArray. preserves_tac. Qed.

Lemma preserves_setTransform this a b c d tx ty :
  preserves (setTransform this a b c d tx ty).
Proof. unfold setTransform. preserves_tac. Qed.

Lemma preserves_applyInverse this x y output :
  preserves (applyInverse this x y output).
Proof. unfold applyInverse. preserves_tac. Qed.

Lemma preserves_applyITRS this x y r sx sy kx ky :
  preserves (applyITRS this x y r sx sy kx ky).
Proof. unfold applyITRS. preserves_tac. Qed.

Lemma preserves_skew this sx sy : preserves (skew this sx sy).
Proof.
  unfold skew, get_tx, get_ty, get_rotation, get_scaleX, get_scaleY,
    get_a, get_b, get_c, get_d. preserves_tac.
Qed.

Lemma preserves_decomposeMatrix this : preserves (decomposeMatrix this).
Proof. unfold decomposeMatrix. preserves_tac. Qed.

End MethodsKeepInvariant.

(** ** The claims *)

Section Claims.
Local Open Scope js_scope.

(** C1. [multiply(rhs, out)] writes, into [out] when it is given and into
    [this] otherwise, the six values
    a' = rhs.a*a + rhs.b*c, b' = rhs.a*b + rhs.b*d, c' = rhs.c*a + rhs.d*c,
    d' = rhs.c*b + rhs.d*d, e' = rhs.e*a + rhs.f*c + e, f' = rhs.e*b + rhs.f*d + f,
    where a..f and rhs.a..rhs.f are the scalars read at call entry.  The
    locations [this], [rhs] and [out] are arbitrary: the equations hold when
    [out] is omitted and when [rhs] is the instance [this] itself.  Each value
    lands in the Float32Array through the element store. *)
Theorem multiply_writes_product {num : Type} `{!JSNumber num}
    (st : store num) (this rhs : loc) (out : option loc)
    (L R : TransformMatrix num) :
  matrices st !! this = Some L ->
  matrices st !! rhs = Some R ->
  (forall o, out = Some o -> is_Some (matrices st !! o)) ->
  let dest := match out with None => this | Some o => o end in
  let a := m0 (matrix L) in let b := m1 (matrix L) in
  let c := m2 (matrix L) in let d := m3 (matrix L) in
  let e := m4 (matrix L) in let f := m5 (matrix L) in
  let rhs_a := m0 (matrix R) in let rhs_b := m1 (matrix R) in
  let rhs_c := m2 (matrix R) in let rhs_d := m3 (matrix R) in
  let rhs_e := m4 (matrix R) in let rhs_f := m5 (matrix R) in
  exists st' T,
    multiply this rhs out st = Some (dest, st') /\
    matrices st' !! dest = Some T /\
    matrix T =
      mkFloat32Array
        (to_float32 (rhs_a * a + rhs_b * c))
        (to_float32 (rhs_a * b + rhs_b * d))
        (to_float32 (rhs_c * a + rhs_d * c))
        (to_float32 (rhs_c * b + rhs_d * d))
        (to_float32 (rhs_e * a + rhs_f * c + e))
        (to_float32 (rhs_e * b + rhs_f * d + f)).
Proof.
  intros HL HR Hout dest.
  assert (HD : is_Some (matrices st !! dest)).
  { subst dest. destruct out as [o|]; [apply (Hout o eq_refl) | eauto]. }
  destruct HD as [D HD]. cbv zeta.
  eexists _, _. split; [apply (multiply_run st this rhs out L R D HL HR HD)|].
  cbn [matrices]. fold dest. rewrite lookup_insert_eq. split; reflexivity.
Qed.

(** In place and self-aliased: squaring the matrix (2, 0, 0, 3, 5, 7). *)
Lemma multiply_writes_product_witness :
  exists st' T,
    multiply 1%positive 1%positive None
      (one_matrix (sample_matrix 2 0 0 3 5 7)) = Some (1%positive, st') /\
    matrices st' !! 1%positive = Some T /\
    matrix T = matrix (sample_matrix 4 0 0 9 15 28).
Proof.
  destruct (multiply_writes_product
              (one_matrix (sample_matrix 2 0 0 3 5 7)) 1%positive 1%positive None
              (sample_matrix 2 0 0 3 5 7) (sample_matrix 2 0 0 3 5 7))
    as (st' & T & Hrun & Hget & Hm).
  - reflexivity.
  - reflexivity.
  - discriminate.
  - exists st', T. split; [exact Hrun|]. split; [exact Hget|].
    rewrite Hm. vm_compute. reflexivity.
Defined.

(** C9. With an [out] matrix distinct from [this], [multiply(rhs, out)]
    leaves the object [this] as it was, all six scalars included; and
    [applyInverse(x, y, output)] leaves every matrix of the store as it
    was, whatever [x], [y] and [output] are. *)
Theorem out_destination_preserves_this {num : Type} `{!JSNumber num}
    (st : store num) (this : loc) (T : TransformMatrix num) :
  matrices st !! this = Some T ->
  (forall rhs out R O,
     matrices st !! rhs = Some R ->
     matrices st !! out = Some O ->
     out <> this ->
     exists st',
       multiply this rhs (Some out) st = Some (out, st') /\
       matrices st' !! this = Some T) /\
  (forall x y output,
     out_point_ok st output ->
     exists p st',
       applyInverse this x y output st = Some (p, st') /\
       matrices st' = matrices st).
Proof.
  intros HT. split.
  - intros rhs out R O HR HO Hne.
    eexists. split; [apply (multiply_run st this rhs (Some out) T R O HT HR HO)|].
    cbn [matrices]. rewrite lookup_insert_ne by exact Hne. exact HT.
  - intros x y output Hp.
    eexists _, _. split; [apply (applyInverse_run st this x y output T HT Hp)|].
    reflexivity.
Qed.

Lemma out_destination_preserves_this_witness :
  let T := sample_matrix 2 0 0 3 5 7 in
  let U := sample_matrix 1 0 0 1 0 0 in
  (exists st',
     multiply 1%positive 1%positive (Some 2%positive) (two_matrices T U) =
       Some (2%positive, st') /\
     matrices st' !! 1%positive = Some T) /\
  (exists p st',
     applyInverse 1%positive (of_Z 3) (of_Z (-4)) None (two_matrices T U) =
       Some (p, st') /\
     matrices st' = matrices (two_matrices T U)).
Proof.
  intros T U.
  destruct (out_destination_preserves_this (two_matrices T U) 1%positive T)
    as [Hmul Hinv].
  - reflexivity.
  - split.
    + apply (Hmul 1%positive 2%positive T U).
      * reflexivity.
      * reflexivity.
      * discriminate.
    + apply (Hinv (of_Z 3) (of_Z (-4)) None). exact I.
Defined.

(** C3. [translate(x, y)] sets tx' = a*x + c*y + tx and ty' = b*x + d*y + ty
    (through the element store) and leaves a, b, c, d as they were, in every
    number system; and in the engine's arithmetic, from the identity,
    [translate(5, 0)] then [translate(0, 3)] yields tx = 5 and ty = 3. *)
Theorem translate_appends_local_offset :
  (forall (num : Type) (N : JSNumber num) (st : store num) this T x y,
     matrices st !! this = Some T ->
     exists st' T',
       translate this x y st = Some (this, st') /\
       matrices st' !! this = Some T' /\
       m4 (matrix T') =
         to_float32 (m0 (matrix T) * x + m2 (matrix T) * y + m4 (matrix T)) /\
       m5 (matrix T') =
         to_float32 (m1 (matrix T) * x + m3 (matrix T) * y + m5 (matrix T)) /\
       m0 (matrix T') = m0 (matrix T) /\ m1 (matrix T') = m1 (matrix T) /\
       m2 (matrix T') = m2 (matrix T) /\ m3 (matrix T') = m3 (matrix T)) /\
  (forall (st : store IEEE.float) this T,
     matrices st !! this = Some T ->
     exists st' T',
       (loadIdentity this;;;
        translate this (of_Z 5) (of_Z 0);;;
        translate this (of_Z 0) (of_Z 3)) st = Some (this, st') /\
       matrices st' !! this = Some T' /\
       m4 (matrix T') = of_Z 5 /\ m5 (matrix T') = of_Z 3).
Proof.
  split.
  - intros num N st this T x y HT.
    eexists _, _. split; [apply (translate_run st this x y T HT)|].
    cbn [matrices]. rewrite lookup_insert_eq. repeat split; reflexivity.
  - intros st this T HT.
    eexists _, _. split.
    + unfold bind at 1. rewrite (loadIdentity_run st this T HT).
      unfold bind at 1. erewrite translate_run by lookup_now.
      erewrite translate_run by lookup_now. reflexivity.
    + cbn [matrices]. collapse. rewrite lookup_insert_eq.
      split; [reflexivity|]. cbn [matrix m0 m1 m2 m3 m4 m5].
      split; vm_compute; reflexivity.
Qed.

Lemma translate_appends_local_offset_witness :
  let T := sample_matrix 2 0 0 3 5 7 in
  exists st' T',
    translate 1%positive (of_Z 1) (of_Z 1) (one_matrix T) = Some (1%positive, st') /\
    matrices st' !! 1%positive = Some T' /\
    matrix T' = matrix (sample_matrix 2 0 0 3 7 10).
Proof.
  intros T.
  destruct (proj1 translate_appends_local_offset IEEE.float _
              (one_matrix T) 1%positive T (of_Z 1) (of_Z 1))
    as (st' & T' & Hrun & Hget & H4 & H5 & H0 & H1 & H2 & H3).
  - reflexivity.
  - exists st', T'. split; [exact Hrun|]. split; [exact Hget|].
    destruct T' as [[a b c d e f] D]. cbn in H0, H1, H2, H3, H4, H5.
    subst. vm_compute. reflexivity.
Defined.

(** C4. [applyITRS(x, y, rotation, scaleX, scaleY, skewX, skewY)], with
    [skewX] and [skewY] taken as 0 when omitted, sets tx = x, ty = y,
    a = cos(rotation - skewY)*scaleX, b = sin(rotation - skewY)*scaleX,
    c = -sin(rotation + skewX)*scaleY, d = cos(rotation + skewX)*scaleY,
    each through the element store. *)
Theorem applyITRS_sets_six {num : Type} `{!JSNumber num} `{!JSMath num}
    (st : store num) (this : loc) (T : TransformMatrix num)
    (x y rotation scaleX scaleY : num) (skewX skewY : option num) :
  matrices st !! this = Some T ->
  let skew_x := match skewX with Some v => v | None => of_Z 0 end in
  let skew_y := match skewY with Some v => v | None => of_Z 0 end in
  exists st' T',
    applyITRS this x y rotation scaleX scaleY skewX skewY st = Some (this, st') /\
    matrices st' !! this = Some T' /\
    m4 (matrix T') = to_float32 x /\
    m5 (matrix T') = to_float32 y /\
    m0 (matrix T') = to_float32 (Math_cos (rotation - skew_y) * scaleX) /\
    m1 (matrix T') = to_float32 (Math_sin (rotation - skew_y) * scaleX) /\
    m2 (matrix T') = to_float32 (- Math_sin (rotation + skew_x) * scaleY) /\
    m3 (matrix T') = to_float32 (Math_cos (rotation + skew_x) * scaleY).
Proof.
  intros HT kx ky.
  eexists _, _. split; [apply (applyITRS_run st this _ _ _ _ _ _ _ T HT)|].
  cbn [matrices]. rewrite lookup_insert_eq. repeat split; reflexivity.
Qed.

(** Skews omitted: translation (5, 7), no rotation, scale (2, 3). *)
Lemma applyITRS_sets_six_witness :
  exists st' T',
    applyITRS 1%positive 5%R 7%R 0%R 2%R 3%R None None
      (one_real_matrix (real_matrix 1 0 0 1 0 0)) = Some (1%positive, st') /\
    matrices st' !! 1%positive = Some T' /\
    matrix T' = mkFloat32Array 2%R 0%R 0%R 3%R 5%R 7%R.
Proof.
  destruct (applyITRS_sets_six
              (one_real_matrix (real_matrix 1 0 0 1 0 0)) 1%positive
              (real_matrix 1 0 0 1 0 0) 5%R 7%R 0%R 2%R 3%R None None)
    as (st' & T' & Hrun & Hget & H4 & H5 & H0 & H1 & H2 & H3).
  - reflexivity.
  - exists st', T'. split; [exact Hrun|]. split; [exact Hget|].
    destruct T' as [[a b c d e f] D]. cbn in H0, H1, H2, H3, H4, H5. subst.
    cbn [matrix].
    replace (0 - 0)%R with 0%R by lra. replace (0 + 0)%R with 0%R by lra.
    rewrite cos_0, sin_0. f_equal; lra.
Defined.

(** C5. When the determinant a*d - b*c is exactly 0, [invert()] and
    [applyInverse()] complete normally, and the division by zero leaves no
    finite value behind: each of the six components of the inverted matrix,
    and each coordinate of the inverse-mapped point, is an infinity or NaN. *)
Theorem degenerate_inverse_is_not_finite
    (st : store IEEE.float) (this : loc) (T : TransformMatrix IEEE.float) :
  matrices st !! this = Some T ->
  let a := m0 (matrix T) in let b := m1 (matrix T) in
  let c := m2 (matrix T) in let d := m3 (matrix T) in
  IEEE.is_zero (a * d - b * c) = true ->
  (exists st' T',
     invert this st = Some (this, st') /\
     matrices st' !! this = Some T' /\
     forall i, IEEE.is_finite (get (matrix T') i) = false) /\
  (forall x y output,
     out_point_ok st output ->
     exists p st' P,
       applyInverse this x y output st = Some (p, st') /\
       points st' !! p = Some P /\
       IEEE.is_finite (Point_x P) = false /\
       IEEE.is_finite (Point_y P) = false).
Proof.
  intros HT a b c d Hz. split.
  - eexists _, _. split; [apply (invert_run st this T HT)|].
    cbn [matrices]. rewrite lookup_insert_eq. split; [reflexivity|].
    intros i. destruct i; cbn [get matrix m0 m1 m2 m3 m4 m5];
      apply fround_not_finite, div_zero_not_finite; exact Hz.
  - intros x y output Hp.
    eexists _, _, _. split; [apply (applyInverse_run st this x y output T HT Hp)|].
    cbn [points]. rewrite lookup_insert_eq. split; [reflexivity|].
    cbn [Point_x Point_y]. fold a b c d.
    rewrite determinant_forms.
    assert (Hid : IEEE.is_finite (of_Z 1 / (a * d - b * c)) = false)
      by (apply div_zero_not_finite; exact Hz).
    split; apply add_not_finite_r, mul_not_finite_r; exact Hid.
Qed.

(** The zero matrix. *)
Lemma degenerate_inverse_is_not_finite_witness :
  let T := sample_matrix 0 0 0 0 0 0 in
  (exists st' T',
     invert 1%positive (one_matrix T) = Some (1%positive, st') /\
     matrices st' !! 1%positive = Some T' /\
     forall i, IEEE.is_finite (get (matrix T') i) = false) /\
  (forall x y output,
     out_point_ok (one_matrix T) output ->
     exists p st' P,
       applyInverse 1%positive x y output (one_matrix T) = Some (p, st') /\
       points st' !! p = Some P /\
       IEEE.is_finite (Point_x P) = false /\
       IEEE.is_finite (Point_y P) = false).
Proof.
  intros T.
  apply (degenerate_inverse_is_not_finite (one_matrix T) 1%positive T).
  - reflexivity.
  - reflexivity.
Defined.

(** C8. For every matrix, [copyToArray()] produces the six scalars in the
    order [a, b, c, d, e, f] (as the first six elements of the array given,
    or as the whole of a new array), and [copyFromArray()] of that array on
    a fresh instance reproduces the six scalars exactly.  The scalars of a
    matrix are Numbers read from its Float32Array. *)
Theorem array_interchange_round_trip
    (st : store IEEE.float) (this : loc) (T : TransformMatrix IEEE.float)
    (out : option (list Arrays.value)) :
  matrices st !! this = Some T ->
  (forall i, IEEE.is_float32 (get (matrix T) i)) ->
  let six := [Arrays.Number (m0 (matrix T)); Arrays.Number (m1 (matrix T));
              Arrays.Number (m2 (matrix T)); Arrays.Number (m3 (matrix T));
              Arrays.Number (m4 (matrix T)); Arrays.Number (m5 (matrix T))] in
  exists arr,
    Arrays.copyToArray this out st = Some (arr, st) /\
    take 6 arr = six /\
    (out = None -> arr = six) /\
    exists other st1 st2 T2,
      new_TransformMatrix None None None None None None st = Some (other, st1) /\
      other <> this /\
      Arrays.copyFromArray other arr st1 = Some (other, st2) /\
      matrices st2 !! other = Some T2 /\
      matrix T2 = matrix T.
Proof.
  intros HT H32 six.
  destruct (copyToArray_run st this out T HT) as (arr & Hrun & Htake & Hlen).
  exists arr. split; [exact Hrun|]. split; [exact Htake|]. split.
  { intros Hnone. subst six. rewrite <- Htake. symmetry. apply take_ge.
    rewrite (Hlen Hnone). lia. }
  eexists _, _, _, _. split; [reflexivity|]. split.
  { intros Heq. pose proof (fresh_matrix_unused st) as Hfresh.
    rewrite Heq, HT in Hfresh. discriminate. }
  split; [apply copyFromArray_run; lookup_now|].
  cbn [matrices]. collapse. rewrite lookup_insert_eq. split; [reflexivity|].
  cbn [matrix].
  rewrite (array_get_take arr 6 0 _ _ Htake eq_refl),
          (array_get_take arr 6 1 _ _ Htake eq_refl),
          (array_get_take arr 6 2 _ _ Htake eq_refl),
          (array_get_take arr 6 3 _ _ Htake eq_refl),
          (array_get_take arr 6 4 _ _ Htake eq_refl),
          (array_get_take arr 6 5 _ _ Htake eq_refl).
  cbn [Arrays.ToNumber].
  pose proof (fun i => fround_float32 _ (H32 i)) as Hfix.
  pose proof (Hfix ix0) as H0. pose proof (Hfix ix1) as H1.
  pose proof (Hfix ix2) as H2. pose proof (Hfix ix3) as H3.
  pose proof (Hfix ix4) as H4. pose proof (Hfix ix5) as H5.
  cbn [get] in H0, H1, H2, H3, H4, H5.
  cbn [to_float32 IEEE.float_number].
  rewrite H0, H1, H2, H3, H4, H5.
  destruct T as [[a b c d e f] D]. reflexivity.
Qed.

Lemma sample_is_float32 (a b c d tx ty : Z) :
  (forall z, In z [a; b; c; d; tx; ty] ->
     IEEE.to_binary64 (binary_normalize IEEE.prec32 IEEE.emax32 z 0 false) = of_Z z /\
     valid_binary IEEE.prec32 IEEE.emax32
       (binary_normalize IEEE.prec32 IEEE.emax32 z 0 false) = true) ->
  forall i, IEEE.is_float32 (get (matrix (sample_matrix a b c d tx ty)) i).
Proof.
  intros H i.
  destruct i; cbn [get matrix sample_matrix m0 m1 m2 m3 m4 m5];
    (eexists; split; [apply H|symmetry; apply H]); cbn; tauto.
Qed.

Lemma array_interchange_round_trip_witness :
  let T := sample_matrix 2 0 0 3 5 (-7) in
  exists arr,
    Arrays.copyToArray 1%positive None (one_matrix T) = Some (arr, one_matrix T) /\
    arr = [Arrays.Number (of_Z 2); Arrays.Number (of_Z 0); Arrays.Number (of_Z 0);
           Arrays.Number (of_Z 3); Arrays.Number (of_Z 5); Arrays.Number (of_Z (-7))] /\
    exists other st1 st2 T2,
      new_TransformMatrix None None None None None None (one_matrix T) =
        Some (other, st1) /\
      Arrays.copyFromArray other arr st1 = Some (other, st2) /\
      matrices st2 !! other = Some T2 /\
      matrix T2 = matrix T.
Proof.
  intros T.
  destruct (array_interchange_round_trip (one_matrix T) 1%positive T None)
    as (arr & Hrun & _ & Hnone & other & st1 & st2 & T2 & Hnew & _ & Hcopy & Hget & Hm).
  - reflexivity.
  - apply sample_is_float32. intros z Hz. cbn in Hz.
    decompose [or] Hz; subst; try tauto; split; vm_compute; reflexivity.
  - exists arr. split; [exact Hrun|]. split; [exact (Hnone eq_refl)|].
    exists other, st1, st2, T2. repeat split; assumption.
Defined.

(** C10, as stated, fails when [src] is the instance [this] itself:
    [translate] has already moved the translation that [multiply] then
    reads as the source's.  From the identity with offset (1, 0),
    [multiplyWithOffset] ends with tx = 1, and [translate] followed by
    [multiply] with tx = 2. *)
Lemma multiplyWithOffset_is_not_translate_then_multiply :
  let st := one_matrix (sample_matrix 1 0 0 1 0 0) in
  multiplyWithOffset 1%positive 1%positive (of_Z 1) (of_Z 0) st <>
  (translate 1%positive (of_Z 1) (of_Z 0);;;
   multiply 1%positive 1%positive None) st.
Proof.
  intros st Heq.
  apply (f_equal (fun r : option (loc * store IEEE.float) =>
                    match r with
                    | Some (_, s) =>
                        match matrices s !! 1%positive with
                        | Some T => Some (m4 (matrix T))
                        | None => None
                        end
                    | None => None
                    end)) in Heq.
  vm_compute in Heq. discriminate Heq.
Qed.

(** C10, amended.  For a source matrix that is another instance than
    [this], and an offset whose translated position
    (offsetX*a + offsetY*c + tx, offsetX*b + offsetY*d + ty) the Float32Array
    stores exactly, the state after [multiplyWithOffset(src, offsetX, offsetY)]
    is the state after [translate(offsetX, offsetY)] followed by an in-place
    [multiply(src)]. *)
Theorem multiplyWithOffset_is_translate_then_multiply
    (st : store IEEE.float) (this src : loc) (T S : TransformMatrix IEEE.float)
    (offsetX offsetY : IEEE.float) :
  matrices st !! this = Some T ->
  matrices st !! src = Some S ->
  src <> this ->
  let pse := offsetX * m0 (matrix T) + offsetY * m2 (matrix T) + m4 (matrix T) in
  let psf := offsetX * m1 (matrix T) + offsetY * m3 (matrix T) + m5 (matrix T) in
  to_float32 pse = pse ->
  to_float32 psf = psf ->
  multiplyWithOffset this src offsetX offsetY st =
  (translate this offsetX offsetY;;; multiply this src None) st.
Proof.
  intros HT HS Hne pse psf Hpse Hpsf.
  rewrite (multiplyWithOffset_run st this src offsetX offsetY T S HT HS).
  unfold bind. rewrite (translate_run st this offsetX offsetY T HT).
  erewrite multiply_run;
    [ | cbn [matrices]; apply lookup_insert_eq
      | cbn [matrices]; rewrite lookup_insert_ne by congruence; exact HS
      | cbn [matrices]; apply lookup_insert_eq ].
  cbn [matrices points matrix decomposedMatrix m0 m1 m2 m3 m4 m5]. collapse.
  rewrite (mul_comm (m0 (matrix T)) offsetX), (mul_comm (m2 (matrix T)) offsetY),
          (mul_comm (m1 (matrix T)) offsetX), (mul_comm (m3 (matrix T)) offsetY).
  fold pse psf. rewrite Hpse, Hpsf. reflexivity.
Qed.

Lemma multiplyWithOffset_is_translate_then_multiply_witness :
  let st := two_matrices (sample_matrix 2 0 0 3 5 7) (sample_matrix 1 2 3 4 5 6) in
  multiplyWithOffset 1%positive 2%positive (of_Z 10) (of_Z 20) st =
  (translate 1%positive (of_Z 10) (of_Z 20);;;
   multiply 1%positive 2%positive None) st.
Proof.
  intros st.
  apply (multiplyWithOffset_is_translate_then_multiply st 1%positive 2%positive
           (sample_matrix 2 0 0 3 5 7) (sample_matrix 1 2 3 4 5 6)).
  - reflexivity.
  - reflexivity.
  - discriminate.
  - vm_compute. reflexivity.
  - vm_compute. reflexivity.
Defined.

(** The exactness condition of the amended C10 cannot be dropped: with the
    offset 1 + 2^-24 and a source translation of 2^-30, the fused method
    stores 1 + 2^-23 where the two-step path stores 1. *)
Example translate_rounds_in_between :
  let st := two_matrices
              (sample_matrix 1 0 0 1 0 0)
              (mkTransformMatrix
                 (mkFloat32Array (of_Z 1) (of_Z 0) (of_Z 0) (of_Z 1)
                    (S754_finite false 4503599627370496 (-82)) (of_Z 0))
                 fresh_decomposed) in
  let offsetX := S754_finite false 4503599895805952 (-52) in
  let tx_after (r : option (loc * store IEEE.float)) :=
    match r with
    | Some (_, s) => option_map (fun T => m4 (matrix T)) (matrices s !! 1%positive)
    | None => None
    end in
  tx_after (multiplyWithOffset 1%positive 2%positive offsetX (of_Z 0) st) =
    Some (S754_finite false 4503600164241408 (-52)) /\
  tx_after ((translate 1%positive offsetX (of_Z 0);;;
             multiply 1%positive 2%positive None) st) =
    Some (of_Z 1).
Proof. split; vm_compute; reflexivity. Qed.



(** In binary64 the point does not come back exactly: (0, 0) returns as
    (2^-52, 2^-52), (3, -4) as (3 + 3*2^-51, -4), and (1e6, -1e6) as
    (1e6 + 2^-33, -1e6 - 2^-33). *)
Example inverse_round_trip_binary64 :
  let round_trip (x y : IEEE.float) :=
    option_map fst
      (inverse_of_transformed 1%positive x y
         (one_matrix (sample_matrix 2 1 1 3 5 7))) in
  round_trip (of_Z 0) (of_Z 0) =
    Some (mkPoint (S754_finite false 4503599627370496 (-104))
                  (S754_finite false 4503599627370496 (-104))) /\
  round_trip (of_Z 3) (of_Z (-4)) =
    Some (mkPoint (S754_finite false 6755399441055747 (-51)) (of_Z (-4))) /\
  round_trip (of_Z 1000000) (of_Z (-1000000)) =
    Some (mkPoint (S754_finite false 8589934592000001 (-33))
                  (S754_finite true 8589934592000001 (-33))).
Proof. repeat split; vm_compute; reflexivity. Qed.




(** Outside the amended C6: when a = b = 0 and (c, d) is non-zero the getter
    returns TAU minus a signed angle, a value of [π, 3π]. *)
Remark rotationNormalized_second_branch
    (st : store R) (this : loc) (T : TransformMatrix R) :
  matrices st !! this = Some T ->
  (m0 (matrix T) = 0 -> m1 (matrix T) = 0 ->
   m2 (matrix T) <> 0 \/ m3 (matrix T) <> 0 ->
   exists r,
     get_rotationNormalized this st = Some (r, st) /\ PI <= r <= 3 * PI)%R.
Proof.
  intros HT Ha Hb Hcd.
  eexists. split; [apply (get_rotationNormalized_run st this T HT)|].
  assert (Hab : or_truthy (m0 (matrix T)) (m1 (matrix T)) = false)
    by (apply real_or_falsy; tauto).
  apply real_or_truthy in Hcd. rewrite Hab, Hcd.
  cbn [Math_acos MATH_CONST_TAU sub neg Ideal.real_math Ideal.real_number].
  match goal with
  | |- context [if ?g then acos ?u else (- acos ?v)%R] =>
      pose proof (acos_bound u); pose proof (acos_bound v); destruct g
  end; lra.
Qed.

(** The record of [decomposeMatrix] keeps the [skewY] it had, unless the
    (c, d) branch is taken. *)
Lemma decomposeMatrix_keeps_skewY {num : Type} `{!JSNumber num} `{!JSMath num}
    (st : store num) (this : loc) (T : TransformMatrix num) :
  matrices st !! this = Some T ->
  or_truthy (m0 (matrix T)) (m1 (matrix T)) = true \/
  or_truthy (m2 (matrix T)) (m3 (matrix T)) = false ->
  exists D st',
    decomposeMatrix this st = Some (D, st') /\
    skewY D = skewY (decomposedMatrix T).
Proof.
  intros HT Hbranch.
  eexists _, _. split; [apply (decomposeMatrix_run st this T HT)|].
  destruct (or_truthy (m0 (matrix T)) (m1 (matrix T))); [reflexivity|].
  destruct Hbranch as [Hab|Hcd]; [discriminate|]. rewrite Hcd. reflexivity.
Qed.

(** C7.  On a fresh instance, [new TransformMatrix().decomposeMatrix()],
    the (a, b) branch is taken and the record returned has no [skewY]: the
    property is [undefined], not a value computed from the six scalars.  The
    other six fields are assigned. *)
Theorem decomposeMatrix_skewY_not_recomputed :
  exists this st1 D st2,
    new_TransformMatrix None None None None None None (mkStore ∅ ∅)
      = Some (this, st1) /\
    decomposeMatrix (num := R) this st1 = Some (D, st2) /\
    skewY D = None /\
    translateX D = Some 0%R /\ translateY D = Some 0%R /\
    scaleX D = Some 1%R /\ scaleY D = Some 1%R /\
    rotation D = Some 0%R /\ skewX D = Some 0%R.
Proof.
  eexists _, _, _, _. split; [reflexivity|]. split.
  { apply decomposeMatrix_run. cbn [matrices]. apply lookup_insert_eq. }
  cbn [matrix decomposedMatrix m0 m1 m2 m3 m4 m5 default_arg
       to_float32 of_Z Ideal.real_number].
  assert (Hab : or_truthy 1%R 0%R = true) by (apply real_or_truthy; lra).
  rewrite Hab.
  assert (Hgt : gt 0%R 0%R = false).
  { destruct (gt 0%R 0%R) eqn:E; [|reflexivity]. apply real_gt in E. lra. }
  rewrite Hgt.
  cbn [skewY translateX translateY scaleX scaleY rotation skewX
       add sub mul div neg Math_sqrt Math_acos Math_atan
       Ideal.real_number Ideal.real_math].
  replace (1 * 1 + 0 * 0)%R with 1%R by lra. rewrite sqrt_1.
  replace (1 / 1)%R with 1%R by lra. rewrite acos_1.
  replace ((1 * 0 + 0 * 1) / 1)%R with 0%R by lra. rewrite atan_0.
  repeat split; f_equal; lra.
Qed.

End Claims.

(** ** Further properties of the methods

    The remaining methods, and how the methods compose. *)

Section MoreRuns.
Context {num : Type} `{!JSNumber num}.
Local Open Scope js_scope.

Lemma bind_read_point {B} p (k : Point num -> M num B) st o :
  points st !! p = Some o ->
  bind (read_point p) k st = k o st.
Proof. intros H. unfold bind, read_point. rewrite H. reflexivity. Qed.

Lemma bind_fails {A B} (c : M num A) (k : A -> M num B) st :
  c st = None -> bind c k st = None.
Proof. intros H. unfold bind. rewrite H. reflexivity. Qed.

Lemma load_fails r i (st : store num) :
  matrices st !! r = None -> load r i st = None.
Proof. intros H. unfold load. rewrite H. reflexivity. Qed.

Lemma store_elem_fails r i v (st : store num) :
  matrices st !! r = None -> store_elem r i v st = None.
Proof. intros H. unfold store_elem. rewrite H. reflexivity. Qed.


Lemma transform_run (st : store num) this a b c d tx ty T :
  matrices st !! this = Some T ->
  let a0 := m0 (matrix T) in let b0 := m1 (matrix T) in
  let c0 := m2 (matrix T) in let d0 := m3 (matrix T) in
  let tx0 := m4 (matrix T) in let ty0 := m5 (matrix T) in
  transform this a b c d tx ty st =
  Some (this,
    mkStore
      (<[this := mkTransformMatrix
           (mkFloat32Array
              (to_float32 (a * a0 + b * c0)) (to_float32 (a * b0 + b * d0))
              (to_float32 (c * a0 + d * c0)) (to_float32 (c * b0 + d * d0))
              (to_float32 (tx * a0 + ty * c0 + tx0))
              (to_float32 (tx * b0 + ty * d0 + ty0)))
           (decomposedMatrix T)]> (matrices st))
      (points st)).
Proof. intros HT. unfold transform. cbv zeta. steps. collapse. reflexivity. Qed.

Lemma setTransform_run (st : store num) this a b c d tx ty T :
  matrices st !! this = Some T ->
  setTransform this a b c d tx ty st =
  Some (this,
    mkStore
      (<[this := mkTransformMatrix
           (mkFloat32Array (to_float32 a) (to_float32 b) (to_float32 c)
                           (to_float32 d) (to_float32 tx) (to_float32 ty))
           (decomposedMatrix T)]> (matrices st))
      (points st)).
Proof. intros HT. unfold setTransform. steps. collapse. reflexivity. Qed.

(** [copyFrom] of another instance. *)
Lemma copyFrom_run (st : store num) this src T S :
  matrices st !! this = Some T ->
  matrices st !! src = Some S ->
  src <> this ->
  copyFrom this src st =
  Some (this,
    mkStore
      (<[this := mkTransformMatrix
           (mkFloat32Array
              (to_float32 (m0 (matrix S))) (to_float32 (m1 (matrix S)))
              (to_float32 (m2 (matrix S))) (to_float32 (m3 (matrix S)))
              (to_float32 (m4 (matrix S))) (to_float32 (m5 (matrix S))))
           (decomposedMatrix T)]> (matrices st))
      (points st)).
Proof.
  intros HT HS Hne.
  unfold copyFrom, get_a, get_b, get_c, get_d, get_e, get_f.
  repeat (step; collapse). reflexivity.
Qed.

(** [copyFrom] of the instance itself. *)
Lemma copyFrom_self_run (st : store num) this T :
  matrices st !! this = Some T ->
  copyFrom this this st =
  Some (this,
    mkStore
      (<[this := mkTransformMatrix
           (mkFloat32Array
              (to_float32 (m0 (matrix T))) (to_float32 (m1 (matrix T)))
              (to_float32 (m2 (matrix T))) (to_float32 (m3 (matrix T)))
              (to_float32 (m4 (matrix T))) (to_float32 (m5 (matrix T))))
           (decomposedMatrix T)]> (matrices st))
      (points st)).
Proof.
  intros HT.
  unfold copyFrom, get_a, get_b, get_c, get_d, get_e, get_f.
  steps. collapse. reflexivity.
Qed.

Lemma getX_run (st : store num) this x y T :
  matrices st !! this = Some T ->
  getX this x y st = Some (x * m0 (matrix T) + y * m2 (matrix T) + m4 (matrix T), st).
Proof. intros HT. unfold getX, get_a, get_c, get_e. steps. reflexivity. Qed.

Lemma getY_run (st : store num) this x y T :
  matrices st !! this = Some T ->
  getY this x y st = Some (x * m1 (matrix T) + y * m3 (matrix T) + m5 (matrix T), st).
Proof. intros HT. unfold getY, get_b, get_d, get_f. steps. reflexivity. Qed.

Lemma transformed_run (st : store num) this x y T :
  matrices st !! this = Some T ->
  exists st',
    transformed this x y st =
      Some (mkPoint (x * m0 (matrix T) + y * m2 (matrix T) + m4 (matrix T))
                    (x * m1 (matrix T) + y * m3 (matrix T) + m5 (matrix T)), st') /\
    matrices st' = matrices st.
Proof.
  intros HT. eexists. split.
  - unfold transformed, bind.
    rewrite (transformPoint_run st this x y None T HT I).
    unfold read_point. cbn [points out_point]. rewrite lookup_insert_eq.
    reflexivity.
  - reflexivity.
Qed.

End MoreRuns.

Section MoreRunsMath.
Context {num : Type} `{!JSNumber num} `{!JSMath num}.
Local Open Scope js_scope.



Lemma get_scaleX_run (st : store num) this T :
  matrices st !! this = Some T ->
  get_scaleX this st =
  Some (Math_sqrt ((m0 (matrix T) * m0 (matrix T)) + (m1 (matrix T) * m1 (matrix T))), st).
Proof. intros HT. unfold get_scaleX, get_a, get_b. steps. reflexivity. Qed.

Lemma get_scaleY_run (st : store num) this T :
  matrices st !! this = Some T ->
  get_scaleY this st =
  Some (Math_sqrt ((m2 (matrix T) * m2 (matrix T)) + (m3 (matrix T) * m3 (matrix T))), st).
Proof. intros HT. unfold get_scaleY, get_c, get_d. steps. reflexivity. Qed.


End MoreRunsMath.

(** *** What a method writes *)

Section Frames.
Context {num : Type} `{!JSNumber num}.

Lemma writes_only_ret this {A} (a : A) : writes_only this (ret (num := num) a).
Proof. intros st a' st' [= _ <-]. split; reflexivity. Qed.

Lemma writes_only_bind this {A B} (c : M num A) (k : A -> M num B) :
  writes_only this c -> (forall a, writes_only this (k a)) ->
  writes_only this (bind c k).
Proof.
  intros Hc Hk st b st'. unfold bind.
  destruct (c st) as [[a st1]|] eqn:E; [|discriminate].
  intros Hrun. destruct (Hc st a st1 E) as [Hp Hm].
  destruct (Hk a st1 b st' Hrun) as [Hp' Hm'].
  split; [congruence|]. intros r Hr. rewrite (Hm' r Hr). apply Hm, Hr.
Qed.

Lemma writes_only_load this r i : writes_only this (load (num := num) r i).
Proof.
  intros st a st'. unfold load.
  destruct (matrices st !! r); [|discriminate]. intros [= _ <-]. split; reflexivity.
Qed.

Lemma writes_only_load_decomposed this r :
  writes_only this (load_decomposed (num := num) r).
Proof.
  intros st a st'. unfold load_decomposed.
  destruct (matrices st !! r); [|discriminate]. intros [= _ <-]. split; reflexivity.
Qed.

Lemma writes_only_store_elem this i v : writes_only this (store_elem this i v).
Proof.
  intros st a st'. unfold store_elem.
  destruct (matrices st !! this); [|discriminate]. intros [= _ <-].
  split; [reflexivity|]. intros r Hr. cbn [matrices].
  apply lookup_insert_ne. congruence.
Qed.

Lemma writes_only_update_decomposed this (f : Decomposed num -> Decomposed num) :
  writes_only this (update_decomposed this f).
Proof.
  intros st a st'. unfold update_decomposed.
  destruct (matrices st !! this); [|discriminate]. intros [= _ <-].
  split; [reflexivity|]. intros r Hr. cbn [matrices].
  apply lookup_insert_ne. congruence.
Qed.

Lemma reads_only_ret {A} (a : A) : reads_only (ret (num := num) a).
Proof. intros st a' st' [= _ <-]. reflexivity. Qed.

Lemma reads_only_bind {A B} (c : M num A) (k : A -> M num B) :
  reads_only c -> (forall a, reads_only (k a)) -> reads_only (bind c k).
Proof.
  intros Hc Hk st b st'. unfold bind.
  destruct (c st) as [[a st1]|] eqn:E; [|discriminate].
  intros Hrun. rewrite <- (Hc st a st1 E). exact (Hk a st1 b st' Hrun).
Qed.

Lemma reads_only_load r i : reads_only (load (num := num) r i).
Proof.
  intros st a st'. unfold load.
  destruct (matrices st !! r); [|discriminate]. intros [= _ <-]. reflexivity.
Qed.

End Frames.

Ltac writes_only_tac :=
  repeat first
    [ apply writes_only_ret
    | apply writes_only_load
    | apply writes_only_load_decomposed
    | apply writes_only_store_elem
    | apply writes_only_update_decomposed
    | apply writes_only_bind; [|intros ?]
    | match goal with
      | |- writes_only _ (match ?x with _ => _ end) => destruct x
      end ].

Ltac reads_only_tac :=
  repeat first
    [ apply reads_only_ret
    | apply reads_only_load
    | apply reads_only_bind; [|intros ?]
    | match goal with
      | |- reads_only (match ?x with _ => _ end) => destruct x
      end ].

Section MoreProperties.
Local Open Scope js_scope.

(** X1. [transform(a, b, c, d, tx, ty)] does what an in-place [multiply(rhs)]
    does for a matrix [rhs] that holds these six scalars, the instance
    itself included: the two leave the same store. *)
Theorem transform_is_multiply {num : Type} `{!JSNumber num}
    (st : store num) (this rhs : loc) (L R : TransformMatrix num) :
  matrices st !! this = Some L ->
  matrices st !! rhs = Some R ->
  transform this (m0 (matrix R)) (m1 (matrix R)) (m2 (matrix R))
                 (m3 (matrix R)) (m4 (matrix R)) (m5 (matrix R)) st =
  multiply this rhs None st.
Proof.
  intros HL HR.
  rewrite (transform_run st this _ _ _ _ _ _ L HL).
  rewrite (multiply_run st this rhs None L R L HL HR HL).
  reflexivity.
Qed.

Lemma transform_is_multiply_witness :
  let st := two_matrices (sample_matrix 2 0 0 3 5 7) (sample_matrix 1 2 3 4 5 6) in
  transform 1%positive (of_Z 1) (of_Z 2) (of_Z 3) (of_Z 4) (of_Z 5) (of_Z 6) st =
  multiply 1%positive 2%positive None st.
Proof.
  intros st.
  apply (transform_is_multiply st 1%positive 2%positive
           (sample_matrix 2 0 0 3 5 7) (sample_matrix 1 2 3 4 5 6));
    reflexivity.
Defined.

(** X2. [getX(x, y)] and [getY(x, y)] are the two coordinates of the point
    [transformPoint(x, y)] returns, computed without creating a point: they
    leave the store as it is. *)
Theorem getX_getY_are_transformPoint {num : Type} `{!JSNumber num}
    (st : store num) (this : loc) (T : TransformMatrix num) (x y : num) :
  matrices st !! this = Some T ->
  exists Q st',
    transformed this x y st = Some (Q, st') /\
    getX this x y st = Some (Point_x Q, st) /\
    getY this x y st = Some (Point_y Q, st).
Proof.
  intros HT. destruct (transformed_run st this x y T HT) as (st' & Hrun & _).
  eexists _, _. split; [exact Hrun|].
  split; [apply (getX_run st this x y T HT)|apply (getY_run st this x y T HT)].
Qed.

Lemma getX_getY_are_transformPoint_witness :
  let st := one_matrix (sample_matrix 2 0 0 3 5 7) in
  exists Q st',
    transformed 1%positive (of_Z 1) (of_Z 1) st = Some (Q, st') /\
    getX 1%positive (of_Z 1) (of_Z 1) st = Some (Point_x Q, st) /\
    getY 1%positive (of_Z 1) (of_Z 1) st = Some (Point_y Q, st) /\
    Q = mkPoint (of_Z 7) (of_Z 10).
Proof.
  intros st.
  destruct (getX_getY_are_transformPoint st 1%positive
              (sample_matrix 2 0 0 3 5 7) (of_Z 1) (of_Z 1))
    as (Q & st' & Hrun & HX & HY).
  - reflexivity.
  - exists Q, st'. repeat split; try assumption.
    vm_compute in Hrun. injection Hrun as <- _. reflexivity.
Defined.

(** X3. The methods that update in place write to the instance they are
    called on and to nothing else: every other matrix of the store, and
    every point, is as it was.  For [multiply] the instance written is [out]
    when it is given. *)
Theorem mutators_write_only_this {num : Type} `{!JSNumber num} `{!JSMath num}
    (this : loc) :
  writes_only this (loadIdentity this) /\
  (forall x y, writes_only this (translate this x y)) /\
  (forall x y, writes_only this (scale this x y)) /\
  (forall angle, writes_only this (rotate this angle)) /\
  (forall sx sy, writes_only this (skew this sx sy)) /\
  (forall a b c d tx ty, writes_only this (transform this a b c d tx ty)) /\
  (forall a b c d tx ty, writes_only this (setTransform this a b c d tx ty)) /\
  (forall src, writes_only this (copyFrom this src)) /\
  (forall src ox oy, writes_only this (multiplyWithOffset this src ox oy)) /\
  (forall rhs, writes_only this (multiply this rhs None)) /\
  (forall that rhs, writes_only this (multiply that rhs (Some this))) /\
  writes_only this (invert this) /\
  (forall x y r sx sy kx ky, writes_only this (applyITRS this x y r sx sy kx ky)) /\
  writes_only this (decomposeMatrix this).
Proof.
  repeat match goal with |- _ /\ _ => split end; intros;
    unfold loadIdentity, translate, scale, rotate, skew, transform, setTransform,
      copyFrom, multiplyWithOffset, multiply, invert, applyITRS, decomposeMatrix,
      get_tx, get_ty, get_rotation, get_scaleX, get_scaleY,
      get_a, get_b, get_c, get_d, get_e, get_f,
      set_a, set_b, set_c, set_d, set_e, set_f;
    writes_only_tac.
Qed.

(** X4. The getters [a] .. [f], [scaleX], [scaleY], [rotation],
    [rotationNormalized] and the methods [getX], [getY] read the matrix and
    write nothing: the store after the call is the store before. *)
Theorem readers_leave_the_store {num : Type} `{!JSNumber num} `{!JSMath num}
    (this : loc) :
  @reads_only num num (get_a this) /\ @reads_only num num (get_b this) /\
  @reads_only num num (get_c this) /\ @reads_only num num (get_d this) /\
  @reads_only num num (get_e this) /\ @reads_only num num (get_f this) /\
  @reads_only num num (get_tx this) /\ @reads_only num num (get_ty this) /\
  @reads_only num num (get_scaleX this) /\ @reads_only num num (get_scaleY this) /\
  @reads_only num num (get_rotation this) /\
  @reads_only num num (get_rotationNormalized this) /\
  (forall x y, @reads_only num num (getX this x y)) /\
  (forall x y, @reads_only num num (getY this x y)).
Proof.
  repeat match goal with |- _ /\ _ => split end; intros;
    unfold get_rotation, get_rotationNormalized, getX, getY,
      get_scaleX, get_scaleY, get_tx, get_ty,
      get_a, get_b, get_c, get_d, get_e, get_f;
    reads_only_tac.
Qed.

(** X5. Where the (a, b) column is non-zero, and for the zero matrix, the
    [rotation] that [decomposeMatrix()] records is the value of the getter
    [rotationNormalized]; where a = b = 0 and (c, d) is non-zero the two take
    the same signed angle off different constants, [Math.PI * 0.5] in
    [decomposeMatrix] and [TAU] in the getter. *)
Theorem decomposed_rotation_and_rotationNormalized
    {num : Type} `{!JSNumber num} `{!JSMath num}
    (st : store num) (this : loc) (T : TransformMatrix num) :
  matrices st !! this = Some T ->
  let a := m0 (matrix T) in let b := m1 (matrix T) in
  let c := m2 (matrix T) in let d := m3 (matrix T) in
  exists r D st',
    get_rotationNormalized this st = Some (r, st) /\
    decomposeMatrix this st = Some (D, st') /\
    (or_truthy a b = true \/ or_truthy c d = false -> rotation D = Some r) /\
    (or_truthy a b = false -> or_truthy c d = true ->
     exists s, r = MATH_CONST_TAU - s /\ rotation D = Some (Math_PI * lit_0_5 - s)).
Proof.
  intros HT a b c d.
  eexists _, _, _.
  split; [apply (get_rotationNormalized_run st this T HT)|].
  split; [apply (decomposeMatrix_run st this T HT)|].
  fold a b c d. split.
  - intros H. destruct (or_truthy a b); [reflexivity|].
    destruct H as [H|H]; [discriminate|]. rewrite H. reflexivity.
  - intros Hab Hcd. rewrite Hab, Hcd. eexists. split; reflexivity.
Qed.

Lemma decomposed_rotation_and_rotationNormalized_witness :
  let st := one_real_matrix (real_matrix 0 1 (-1) 0 0 0) in
  exists r D st',
    get_rotationNormalized 1%positive st = Some (r, st) /\
    decomposeMatrix 1%positive st = Some (D, st') /\
    rotation D = Some r.
Proof.
  intros st.
  destruct (decomposed_rotation_and_rotationNormalized st 1%positive
              (real_matrix 0 1 (-1) 0 0 0))
    as (r & D & st' & Hr & HD & Hsame & _).
  - reflexivity.
  - exists r, D, st'. split; [exact Hr|]. split; [exact HD|].
    apply Hsame. left. apply real_or_truthy. cbn. lra.
Defined.

(** X6. After [destroy()] the instance has no storage: every method called
    on it fails, and so does a [multiply] that names it as [rhs] or as
    [out].  The other instances of the store are as they were. *)
Theorem use_after_destroy_fails {num : Type} `{!JSNumber num} `{!JSMath num}
    (st : store num) (this : loc) :
  exists st',
    destroy this st = Some (tt, st') /\
    (forall r, r <> this -> matrices st' !! r = matrices st !! r) /\
    points st' = points st /\
    loadIdentity this st' = None /\
    (forall x y, translate this x y st' = None) /\
    (forall x y, scale this x y st' = None) /\
    (forall angle, rotate this angle st' = None) /\
    (forall sx sy, skew this sx sy st' = None) /\
    (forall a b c d tx ty, transform this a b c d tx ty st' = None) /\
    (forall a b c d tx ty, setTransform this a b c d tx ty st' = None) /\
    (forall src, copyFrom this src st' = None) /\
    (forall src ox oy, multiplyWithOffset this src ox oy st' = None) /\
    (forall rhs out, multiply this rhs out st' = None) /\
    (forall that out L, matrices st' !! that = Some L ->
                        multiply that this out st' = None) /\
    (forall that rhs L R, matrices st' !! that = Some L ->
                          matrices st' !! rhs = Some R ->
                          multiply that rhs (Some this) st' = None) /\
    invert this st' = None /\
    (forall x y point, transformPoint this x y point st' = None) /\
    (forall x y output, applyInverse this x y output st' = None) /\
    (forall x y, getX this x y st' = None) /\
    (forall x y, getY this x y st' = None) /\
    get_scaleX this st' = None /\
    get_rotationNormalized this st' = None /\
    (forall x y r sx sy kx ky, applyITRS this x y r sx sy kx ky st' = None) /\
    decomposeMatrix this st' = None.
Proof.
  eexists. split; [reflexivity|].
  set (st' := mkStore (delete this (matrices st)) (points st)).
  assert (Hgone : matrices st' !! this = None) by apply lookup_delete_eq.
  assert (Hload : forall i, load this i st' = None)
    by (intros i; apply load_fails, Hgone).
  assert (Hstore : forall i v, store_elem this i v st' = None)
    by (intros i v; apply store_elem_fails, Hgone).
  split; [intros r Hr; cbn [matrices st']; apply lookup_delete_ne; congruence|].
  split; [reflexivity|].
  repeat match goal with |- _ /\ _ => split end; intros;
    try (apply bind_fails; first [apply Hload | apply Hstore]).
  - (* copyFrom: [src.a] is read first *)
    unfold copyFrom, get_a.
    destruct (matrices st' !! src) as [S|] eqn:HS.
    + erewrite bind_load by exact HS. apply bind_fails, Hstore.
    + apply bind_fails, load_fails, HS.
  - (* multiply, [rhs] destroyed *)
    unfold multiply. steps. apply bind_fails, Hload.
  - (* multiply, [out] destroyed *)
    unfold multiply, set_a. steps. apply bind_fails, Hstore.
  - (* transformPoint: the point is created first *)
    unfold transformPoint. destruct point; steps; apply bind_fails, load_fails;
      exact Hgone.
  - (* applyInverse *)
    unfold applyInverse. destruct output; steps; apply bind_fails, load_fails;
      exact Hgone.
Qed.

(** X25. [transformPoint] and [applyInverse] write the coordinates of one
    point and nothing else: the point given, which they return, or a new
    point that was no point of the store before.  Every other point and
    every matrix is as it was. *)
Theorem point_methods_write_one_point {num : Type} `{!JSNumber num}
    (st : store num) (this : loc) (T : TransformMatrix num) (x y : num)
    (point : option loc) :
  matrices st !! this = Some T ->
  out_point_ok st point ->
  let p := out_point st point in
  (point = None -> points st !! p = None) /\
  (forall q, point = Some q -> p = q) /\
  (exists st',
     transformPoint this x y point st = Some (p, st') /\
     matrices st' = matrices st /\
     forall q, q <> p -> points st' !! q = points st !! q) /\
  (exists st',
     applyInverse this x y point st = Some (p, st') /\
     matrices st' = matrices st /\
     forall q, q <> p -> points st' !! q = points st !! q).
Proof.
  intros HT Hp p. split; [|split; [|split]].
  - intros ->. apply fresh_point_unused.
  - intros q ->. reflexivity.
  - eexists. split; [apply (transformPoint_run st this x y point T HT Hp)|].
    split; [reflexivity|]. intros q Hq. cbn [points].
    apply lookup_insert_ne. unfold p in Hq. congruence.
  - eexists. split; [apply (applyInverse_run st this x y point T HT Hp)|].
    split; [reflexivity|]. intros q Hq. cbn [points].
    apply lookup_insert_ne. unfold p in Hq. congruence.
Qed.

Lemma point_methods_write_one_point_witness :
  let st := one_matrix (sample_matrix 2 0 0 3 5 7) in
  exists p st',
    transformPoint 1%positive (of_Z 1) (of_Z 1) None st = Some (p, st') /\
    points st !! p = None /\
    matrices st' = matrices st.
Proof.
  intros st.
  destruct (point_methods_write_one_point st 1%positive
              (sample_matrix 2 0 0 3 5 7) (of_Z 1) (of_Z 1) None)
    as (Hnew & _ & (st' & Hrun & Hm & _) & _).
  - reflexivity.
  - exact I.
  - exists (out_point st None), st'. split; [exact Hrun|].
    split; [apply Hnew; reflexivity|exact Hm].
Defined.

End MoreProperties.


(** *** Algebra of the methods, over the real numbers *)

Ltac real_ops :=
  cbn [add sub mul div neg of_Z to_float32 Math_sqrt Math_cos Math_sin
       Math_acos Math_atan Math_PI MATH_CONST_TAU
       Ideal.real_number Ideal.real_math
       matrix decomposedMatrix m0 m1 m2 m3 m4 m5 Point_x Point_y determinant] in *.

Section RealAlgebra.
Local Open Scope R_scope.













(** *** What the getters return after [applyITRS] *)



















End RealAlgebra.

(** *** The engine's arithmetic: signs, exact copies, arrays *)

Section BinaryProperties.
Import IEEE Arrays.
Local Open Scope js_scope.

Lemma binary_round_aux_sign p em m e l :
  sign_bit (binary_round_aux p em false m e l) = false.
Proof.
  unfold binary_round_aux.
  destruct (shr_fexp p em m e l) as [mrs' e'].
  destruct (shr_fexp p em _ e' loc_Exact) as [mrs'' e''].
  destruct (shr_m mrs''); try reflexivity.
  destruct (e'' <=? em - p)%Z; reflexivity.
Qed.

Lemma square_sign (x : float) : sign_bit (x * x) = false.
Proof.
  destruct x as [s|s| |s m e]; cbn; rewrite ?xorb_nilpotent; try reflexivity.
  apply binary_round_aux_sign.
Qed.

Lemma add_sign (x y : float) :
  sign_bit x = false -> sign_bit y = false -> sign_bit (x + y) = false.
Proof.
  destruct x as [sx|sx| |sx mx ex], y as [sy|sy| |sy my ey]; cbn [sign_bit];
    intros Hx Hy; subst; try reflexivity.
  cbn [add float_number SFadd cond_Zopp]. rewrite <- Pos2Z.inj_add.
  cbn [binary_normalize]. unfold binary_round.
  match goal with
  | |- context [let '(mz, ez) := ?sa in _] => destruct sa as [mz ez]
  end.
  apply binary_round_aux_sign.
Qed.

Lemma sqrt_sign (x : float) :
  sign_bit x = false -> sign_bit (Math_sqrt x) = false.
Proof.
  destruct x as [s|s| |s m e]; cbn [sign_bit]; intros Hs; subst; try reflexivity.
  cbn. destruct (SFsqrt_core_binary _ _ _ _) as [[mz ez] lz].
  apply binary_round_aux_sign.
Qed.

(** X17. The getters [scaleX] and [scaleY] never return a negative number,
    nor -0, whatever the six scalars hold: in binary64 the sign of the value
    is clear (the value may be NaN or +Infinity), and over the real numbers
    it is at least 0. *)
Theorem scale_getters_are_not_negative :
  (forall (st : store float) this T,
     matrices st !! this = Some T ->
     exists vx vy,
       get_scaleX this st = Some (vx, st) /\
       get_scaleY this st = Some (vy, st) /\
       sign_bit vx = false /\ sign_bit vy = false) /\
  (forall (st : store R) this T,
     matrices st !! this = Some T ->
     exists vx vy,
       get_scaleX this st = Some (vx, st) /\
       get_scaleY this st = Some (vy, st) /\
       (0 <= vx)%R /\ (0 <= vy)%R).
Proof.
  split; intros st this T HT; eexists _, _;
    (split; [apply (get_scaleX_run st this T HT)|]);
    (split; [apply (get_scaleY_run st this T HT)|]).
  - split; apply sqrt_sign, add_sign; apply square_sign.
  - split; apply sqrt_pos.
Qed.

(** The matrix (-3, 4, 0, -2, 0, 0): the scales read are 5 and 2. *)
Lemma scale_getters_are_not_negative_witness :
  let st := one_matrix (sample_matrix (-3) 4 0 (-2) 0 0) in
  get_scaleX 1%positive st = Some (of_Z 5, st) /\
  get_scaleY 1%positive st = Some (of_Z 2, st).
Proof.
  intros st.
  destruct (proj1 scale_getters_are_not_negative st 1%positive
              (sample_matrix (-3) 4 0 (-2) 0 0))
    as (vx & vy & Hx & Hy & _ & _).
  - reflexivity.
  - rewrite Hx, Hy. vm_compute in Hx, Hy.
    injection Hx as <-. injection Hy as <-. split; reflexivity.
Defined.

(** X18. The Float32Array invariant: the constructor establishes it and
    every method keeps it.  After any of them, each of the six scalars of
    each instance is a Number that binary32 holds, whatever Numbers were
    passed in. *)
Theorem methods_keep_float32 `{!JSMath float} (this : loc) :
  (forall a b c d tx ty, preserves (new_TransformMatrix a b c d tx ty)) /\
  preserves (loadIdentity this) /\
  (forall x y, preserves (translate this x y)) /\
  (forall x y, preserves (scale this x y)) /\
  (forall angle, preserves (rotate this angle)) /\
  (forall sx sy, preserves (skew this sx sy)) /\
  (forall a b c d tx ty, preserves (transform this a b c d tx ty)) /\
  (forall a b c d tx ty, preserves (setTransform this a b c d tx ty)) /\
  (forall src, preserves (copyFrom this src)) /\
  (forall src, preserves (copyFromArray this src)) /\
  (forall src ox oy, preserves (multiplyWithOffset this src ox oy)) /\
  (forall rhs out, preserves (multiply this rhs out)) /\
  preserves (invert this) /\
  (forall x y r sx sy kx ky, preserves (applyITRS this x y r sx sy kx ky)) /\
  preserves (decomposeMatrix this) /\
  (forall x y point, preserves (transformPoint this x y point)) /\
  (forall x y output, preserves (applyInverse this x y output)).
Proof.
  repeat match goal with |- _ /\ _ => split end; intros.
  - apply preserves_new_TransformMatrix.
  - apply preserves_loadIdentity.
  - apply preserves_translate.
  - apply preserves_scale.
  - apply preserves_rotate.
  - apply preserves_skew.
  - apply preserves_transform.
  - apply preserves_setTransform.
  - apply preserves_copyFrom.
  - apply preserves_copyFromArray.
  - apply preserves_multiplyWithOffset.
  - apply preserves_multiply.
  - apply preserves_invert.
  - apply preserves_applyITRS.
  - apply preserves_decomposeMatrix.
  - apply preserves_transformPoint.
  - apply preserves_applyInverse.
Qed.

(** X19. [copyFrom(src)] copies exactly: afterwards the six scalars of
    [this] are those of [src], bit for bit, and [src] is as it was; copying
    an instance onto itself leaves the store as it is. *)
Theorem copyFrom_copies_exactly
    (st : store float) (this src : loc) (T S : TransformMatrix float) :
  matrices st !! this = Some T ->
  matrices st !! src = Some S ->
  float32_array (matrix S) ->
  (src <> this ->
   exists st',
     copyFrom this src st = Some (this, st') /\
     matrices st' !! this = Some (mkTransformMatrix (matrix S) (decomposedMatrix T)) /\
     matrices st' !! src = Some S) /\
  (src = this -> copyFrom this src st = Some (this, st)).
Proof.
  intros HT HS H32.
  pose proof (fun i => fround_float32 _ (H32 i)) as Hfix.
  pose proof (Hfix ix0) as H0. pose proof (Hfix ix1) as H1.
  pose proof (Hfix ix2) as H2. pose proof (Hfix ix3) as H3.
  pose proof (Hfix ix4) as H4. pose proof (Hfix ix5) as H5.
  cbn [get] in H0, H1, H2, H3, H4, H5.
  split.
  - intros Hne. eexists. split; [apply (copyFrom_run st this src T S HT HS Hne)|].
    cbn [matrices to_float32 float_number].
    rewrite H0, H1, H2, H3, H4, H5, lookup_insert_eq.
    rewrite lookup_insert_ne by congruence.
    split; [|exact HS]. destruct S as [[a b c d e f] D]. reflexivity.
  - intros ->. rewrite HT in HS. injection HS as ->.
    rewrite (copyFrom_self_run st this S HT).
    cbn [to_float32 float_number]. rewrite H0, H1, H2, H3, H4, H5.
    destruct st as [ms ps]. cbn [matrices points] in *.
    rewrite insert_id; [reflexivity|].
    rewrite HT. destruct S as [[a b c d e f] D]. reflexivity.
Qed.

Lemma copyFrom_copies_exactly_witness :
  let T := sample_matrix 1 0 0 1 0 0 in
  let S := sample_matrix 2 1 1 3 5 (-7) in
  exists st',
    copyFrom 1%positive 2%positive (two_matrices T S) = Some (1%positive, st') /\
    matrices st' !! 1%positive =
      Some (mkTransformMatrix (matrix S) (decomposedMatrix T)) /\
    matrices st' !! 2%positive = Some S.
Proof.
  intros T S.
  destruct (copyFrom_copies_exactly (two_matrices T S) 1%positive 2%positive T S)
    as [Hcopy _].
  - reflexivity.
  - reflexivity.
  - unfold float32_array, S. apply sample_is_float32. intros z Hz. cbn in Hz.
    decompose [or] Hz; subst; try tauto; split; vm_compute; reflexivity.
  - apply Hcopy. discriminate.
Defined.

(** *** Arrays that are too short or too long *)

Lemma array_get_beyond (arr : list value) (i : nat) :
  (length arr <= i)%nat -> array_get arr i = Undefined.
Proof.
  intros H. unfold array_get. rewrite lookup_ge_None_2 by exact H. reflexivity.
Qed.

(** X20. [copyFromArray] takes an array of any length.  Each of the six
    scalars becomes the element at its index, stored through the
    Float32Array; an element the array does not have reads as [undefined]
    and leaves NaN in its slot.  No error is raised. *)
Theorem copyFromArray_of_a_short_array
    (st : store float) (this : loc) (T : TransformMatrix float)
    (src : list value) :
  matrices st !! this = Some T ->
  exists st' T',
    copyFromArray this src st = Some (this, st') /\
    matrices st' !! this = Some T' /\
    (forall i v, src !! index_nat i = Some (Number v) ->
                 get (matrix T') i = fround v) /\
    (forall i, (length src <= index_nat i)%nat ->
               get (matrix T') i = S754_nan).
Proof.
  intros HT. eexists _, _.
  split; [apply (copyFromArray_run st this src T HT)|].
  cbn [matrices]. rewrite lookup_insert_eq. split; [reflexivity|]. split.
  - intros i v Hi. unfold array_get.
    destruct i; cbn [index_nat] in Hi; cbn [get matrix m0 m1 m2 m3 m4 m5];
      rewrite Hi; reflexivity.
  - intros i Hi.
    destruct i; cbn [index_nat] in Hi; cbn [get matrix m0 m1 m2 m3 m4 m5];
      rewrite (array_get_beyond src _ Hi); reflexivity.
Qed.

(** The array of 2 and 3: a and b are set, c, d, e and f become NaN. *)
Lemma copyFromArray_of_a_short_array_witness :
  let st := one_matrix (sample_matrix 1 0 0 1 0 0) in
  exists st' T',
    copyFromArray 1%positive [Number (of_Z 2); Number (of_Z 3)] st
      = Some (1%positive, st') /\
    matrices st' !! 1%positive = Some T' /\
    matrix T' = mkFloat32Array (of_Z 2) (of_Z 3) S754_nan S754_nan S754_nan S754_nan.
Proof.
  intros st.
  destruct (copyFromArray_of_a_short_array st 1%positive
              (sample_matrix 1 0 0 1 0 0) [Number (of_Z 2); Number (of_Z 3)])
    as (st' & T' & Hrun & Hget & Hin & Hout).
  - reflexivity.
  - exists st', T'. split; [exact Hrun|]. split; [exact Hget|].
    pose proof (Hin ix0 _ eq_refl) as H0. pose proof (Hin ix1 _ eq_refl) as H1.
    pose proof (Hout ix2) as H2. pose proof (Hout ix3) as H3.
    pose proof (Hout ix4) as H4. pose proof (Hout ix5) as H5.
    cbn [index_nat length] in H2, H3, H4, H5.
    destruct T' as [[a b c d e f] D]. cbn [get matrix m0 m1 m2 m3 m4 m5] in *.
    rewrite H0, H1, H2, H3, H4, H5 by lia. vm_compute. reflexivity.
Defined.

Lemma array_set_length (arr : list value) (i : nat) (v : value) :
  length (array_set arr i v) = Nat.max (length arr) (S i).
Proof.
  unfold array_set. destruct (i <? length arr)%nat eqn:E.
  - apply Nat.ltb_lt in E. rewrite length_insert. lia.
  - apply Nat.ltb_ge in E.
    rewrite !length_app, length_replicate. cbn [length]. lia.
Qed.

Lemma array_set_lookup_above (arr : list value) (i j : nat) (v : value) :
  (i < j)%nat -> array_set arr i v !! j = arr !! j.
Proof.
  intros Hij. unfold array_set. destruct (i <? length arr)%nat eqn:E.
  - apply list_lookup_insert_ne. lia.
  - apply Nat.ltb_ge in E.
    rewrite !lookup_ge_None_2; [reflexivity|lia|].
    rewrite !length_app, length_replicate. cbn [length]. lia.
Qed.

(** X21. [copyToArray(out)] writes the elements 0 to 5 of [out] and no
    other: an array longer than six keeps its length and its elements from
    index 6 on, and a shorter array grows to six elements. *)
Theorem copyToArray_keeps_the_tail
    (st : store float) (this : loc) (T : TransformMatrix float)
    (out : list value) :
  matrices st !! this = Some T ->
  exists arr,
    copyToArray this (Some out) st = Some (arr, st) /\
    length arr = Nat.max (length out) 6 /\
    (forall j, (6 <= j)%nat -> arr !! j = out !! j).
Proof.
  intros HT. eexists. split; [unfold copyToArray; steps; cbv zeta; reflexivity|].
  split.
  - rewrite !array_set_length. lia.
  - intros j Hj. rewrite !array_set_lookup_above by lia. reflexivity.
Qed.

Lemma copyToArray_keeps_the_tail_witness :
  let st := one_matrix (sample_matrix 2 0 0 3 5 7) in
  let out := replicate 8 (Number (of_Z 9)) in
  exists arr,
    copyToArray 1%positive (Some out) st = Some (arr, st) /\
    length arr = 8%nat /\
    arr !! 6%nat = Some (Number (of_Z 9)) /\
    arr !! 7%nat = Some (Number (of_Z 9)).
Proof.
  intros st out.
  destruct (copyToArray_keeps_the_tail st 1%positive (sample_matrix 2 0 0 3 5 7) out)
    as (arr & Hrun & Hlen & Htail).
  - reflexivity.
  - exists arr. split; [exact Hrun|]. split; [exact Hlen|].
    split; [rewrite (Htail 6%nat) by lia|rewrite (Htail 7%nat) by lia];
      reflexivity.
Defined.

(** *** The identity *)

(** A canonical mantissa shifted left by [d] digits rounds back to itself. *)
Lemma binary_round_aux_shifted p em s m e d :
  SpecFloat.bounded p em m e = true ->
  binary_round_aux p em s (Zpos (Pos.iter xO m d)) (e - Zpos d) loc_Exact =
  S754_finite s m e.
Proof.
  unfold SpecFloat.bounded, canonical_mantissa. intros H.
  apply andb_true_iff in H as [Hc He]. apply Z.eqb_eq in Hc.
  unfold binary_round_aux, shr_fexp. cbn [Zdigits2 shr_record_of_loc].
  rewrite digits2_pos_shift.
  replace (Zpos (digits2_pos m + d) + (e - Zpos d))%Z
    with (Zpos (digits2_pos m) + e)%Z by lia.
  rewrite Hc. replace (e - (e - Zpos d))%Z with (Zpos d) by lia.
  cbn [shr]. rewrite shr_shift.
  cbn [shr_m loc_of_shr_record round_nearest_even Zdigits2 shr_record_of_loc].
  replace (e - Zpos d + Zpos d)%Z with e by lia.
  rewrite Hc, Z.sub_diag. cbn [shr shr_m]. rewrite He. reflexivity.
Qed.

(** Multiplying a binary64 number by 1 gives the number. *)
Lemma mul_one_r s m e :
  valid_binary prec64 emax64 (S754_finite s m e) = true ->
  (S754_finite s m e * of_Z 1 : float) = S754_finite s m e.
Proof.
  intros Hv. cbn [valid_binary] in Hv.
  change (of_Z 1 : float) with (S754_finite false 4503599627370496 (-52)).
  cbn [mul float_number SFmul]. rewrite xorb_false_r, Pos.mul_comm.
  change (4503599627370496 * m)%positive with (Pos.iter xO m 52).
  change (e + -52)%Z with (e - Zpos 52)%Z.
  apply binary_round_aux_shifted, Hv.
Qed.

(** X22. The identity maps each point to itself: after [loadIdentity()],
    [transformPoint(x, y)] returns (x, y).  Over the real numbers this is an
    equation; in binary64 it holds for all finite x and y, each coordinate
    coming back bit for bit, except that a zero may come back as the zero
    of the other sign. *)
Theorem identity_maps_each_point_to_itself :
  (forall (st : store R) this T (x y : R),
     matrices st !! this = Some T ->
     exists st1 st2,
       loadIdentity this st = Some (this, st1) /\
       transformed this x y st1 = Some (mkPoint x y, st2)) /\
  (forall (st : store float) this T (x y : float),
     matrices st !! this = Some T ->
     valid_binary prec64 emax64 x = true -> is_finite x = true ->
     valid_binary prec64 emax64 y = true -> is_finite y = true ->
     exists st1 Q st2,
       loadIdentity this st = Some (this, st1) /\
       transformed this x y st1 = Some (Q, st2) /\
       (Point_x Q = x \/ (is_zero (Point_x Q) = true /\ is_zero x = true)) /\
       (Point_y Q = y \/ (is_zero (Point_y Q) = true /\ is_zero y = true))).
Proof.
  split.
  - intros st this T x y HT.
    pose proof (loadIdentity_run st this T HT) as Hid.
    match type of Hid with _ = Some (_, ?s) => set (s1 := s) in * end.
    assert (H1 : is_Some (matrices s1 !! this)) by (eexists; apply lookup_insert_eq).
    destruct H1 as [T1 H1]. pose proof H1 as H1'.
    unfold s1 in H1'. cbn [matrices] in H1'. rewrite lookup_insert_eq in H1'.
    injection H1' as <-.
    destruct (transformed_run s1 this x y _ H1) as (s2 & HQ & _).
    exists s1, s2. split; [exact Hid|]. rewrite HQ. real_ops.
    f_equal. apply pair_equal_spec. split; [|reflexivity]. f_equal; ring.
  - intros st this T x y HT Hvx Hfx Hvy Hfy.
    pose proof (loadIdentity_run st this T HT) as Hid.
    match type of Hid with _ = Some (_, ?s) => set (s1 := s) in * end.
    assert (H1 : is_Some (matrices s1 !! this)) by (eexists; apply lookup_insert_eq).
    destruct H1 as [T1 H1]. pose proof H1 as H1'.
    unfold s1 in H1'. cbn [matrices] in H1'. rewrite lookup_insert_eq in H1'.
    injection H1' as <-.
    destruct (transformed_run s1 this x y _ H1) as (s2 & HQ & _).
    eexists s1, _, s2. split; [exact Hid|]. split; [exact HQ|].
    cbn [Point_x Point_y matrix m0 m1 m2 m3 m4 m5].
    change (to_float32 (of_Z 1) : float) with (of_Z 1 : float).
    change (to_float32 (of_Z 0) : float) with (S754_zero false).
    destruct x as [sx|sx| |sx mx ex]; try discriminate;
      destruct y as [sy|sy| |sy my ey]; try discriminate;
      rewrite ?mul_one_r by assumption;
      split;
      first [ left; reflexivity
            | right; split; [|reflexivity]; destruct sx, sy; reflexivity
            | right; split; [|reflexivity]; destruct sx; reflexivity
            | right; split; [|reflexivity]; destruct sy; reflexivity ].
Qed.

Lemma identity_maps_each_point_to_itself_witness :
  let st := one_matrix (sample_matrix 2 1 1 3 5 7) in
  exists st1 Q st2,
    loadIdentity 1%positive st = Some (1%positive, st1) /\
    transformed 1%positive (of_Z 3) (of_Z (-4)) st1 = Some (Q, st2) /\
    Q = mkPoint (of_Z 3) (of_Z (-4)).
Proof.
  intros st.
  destruct (proj2 identity_maps_each_point_to_itself st 1%positive
              (sample_matrix 2 1 1 3 5 7) (of_Z 3) (of_Z (-4)))
    as (st1 & Q & st2 & Hid & HQ & Hx & Hy);
    try reflexivity.
  exists st1, Q, st2. split; [exact Hid|]. split; [exact HQ|].
  destruct Q as [qx qy]. cbn [Point_x Point_y] in Hx, Hy.
  destruct Hx as [->|[_ Hx]]; [|discriminate Hx].
  destruct Hy as [->|[_ Hy]]; [|discriminate Hy].
  reflexivity.
Defined.

End BinaryProperties.
